(** * iec62056_21.transports: block reassembly over serial and TCP links

    A shallow embedding of [src/iec62056_21/transports.py].  Bytes objects are
    lists of bytes, the transport's environment (wall clock, what the peer
    delivers, what was written) is an explicit [World] threaded through a
    small state-and-exception monad, and the class hierarchy
    [BaseTransport] / [SerialTransport] / [TcpTransport] is a type class with
    two instances. *)

From Stdlib Require Import ZArith List Bool String Ascii Lia.
From Stdlib Require Import Strings.Byte.
Import ListNotations.
Open Scope Z_scope.

(** ** Python values *)

Definition bytes := list byte.

Fixpoint bytes_eqb (a b : bytes) : bool :=
  match a, b with
  | [], [] => true
  | x :: a', y :: b' => Byte.eqb x y && bytes_eqb a' b'
  | _, _ => false
  end.

(** [x in xs] for a list of bytes objects. *)
Definition py_in (x : bytes) (xs : list bytes) : bool :=
  existsb (bytes_eqb x) xs.

(** [x == y] where [x] may still be [None]. *)
Definition opt_bytes_eqb (x : option bytes) (y : bytes) : bool :=
  match x with
  | Some b => bytes_eqb b y
  | None => false
  end.

(** [a or b] on an optional integer: [None] and [0] are falsy. *)
Definition py_or (a : option Z) (b : Z) : Z :=
  match a with
  | Some t => if t =? 0 then b else t
  | None => b
  end.

(** [x[:-2]] and [x[1:]]; [x[:-1]] is [removelast]. *)
Definition drop_last2 (x : bytes) : bytes := firstn (List.length x - 2) x.
Definition drop_first (x : bytes) : bytes := skipn 1 x.

(** [Union[str, bytes]] *)
Inductive str_or_bytes :=
| Str (s : string)
| Bytes (b : bytes).

(** The protocol's control characters as they are written in the source. *)
Definition SOH : byte := x01.
Definition STX : byte := x02.
Definition ETX : byte := x03.
Definition EOT : byte := x04.

(** ** The environment of a transport

    Every call of the underlying resource's read ([serial.Serial.read],
    [socket.recv]) is one [rx_event]: the call returns [data] after blocking
    for [dt] clock ticks, or fails after [dt] ticks.  When the script is used
    up the peer stays silent and the call never returns.  The wall clock is
    counted in integer ticks; only blocking in a read call lets it advance. *)

Inductive rx_event :=
| Arrive (dt : Z) (data : bytes)
| Fault (dt : Z).

Record World := mkWorld {
  now : Z;                 (* time.time() *)
  rx : list rx_event;      (* what the resource will deliver *)
  tx : list bytes          (* what was written to the resource, oldest first *)
}.

Inductive exn :=
| TransportError
| TimeoutError
| OSError.

Inductive outcome (A : Type) :=
| Ok (a : A)
| Raise (e : exn)
| Hang            (* the call blocks forever: the peer is silent *)
| Exhausted.      (* the iteration bound of the embedding was reached *)

Arguments Ok {A} a.
Arguments Raise {A} e.
Arguments Hang {A}.
Arguments Exhausted {A}.

Definition M (A : Type) : Type := World -> outcome A * World.

Definition ret {A} (a : A) : M A := fun w => (Ok a, w).

Definition bind {A B} (m : M A) (f : A -> M B) : M B :=
  fun w =>
    match m w with
    | (Ok a, w') => f a w'
    | (Raise e, w') => (Raise e, w')
    | (Hang, w') => (Hang, w')
    | (Exhausted, w') => (Exhausted, w')
    end.

Definition raise {A} (e : exn) : M A := fun w => (Raise e, w).

Definition exhausted {A} : M A := fun w => (Exhausted, w).

(** [try: m except OSError: raise e'] *)
Definition except_OSError {A} (m : M A) (e' : exn) : M A :=
  fun w =>
    match m w with
    | (Raise OSError, w') => (Raise e', w')
    | r => r
    end.

Notation "x <- c1 ;; c2" := (bind c1 (fun x => c2))
  (at level 61, c1 at next level, right associativity).
Notation "c1 ;;; c2" := (bind c1 (fun _ => c2))
  (at level 61, right associativity).

(** [time.time()] *)
Definition time : M Z := fun w => (Ok (now w), w).

(** One read call on the open resource, asking for at most [chars] bytes. *)
Definition resource_read (chars : nat) : M bytes :=
  fun w =>
    match rx w with
    | [] => (Hang, w)
    | Arrive dt data :: rest =>
        (Ok (firstn chars data), mkWorld (now w + dt) rest (tx w))
    | Fault dt :: rest =>
        (Raise OSError, mkWorld (now w + dt) rest (tx w))
    end.

(** One write of [data] to the open resource. *)
Definition resource_write (data : bytes) : M unit :=
  fun w => (Ok tt, mkWorld (now w) (rx w) (tx w ++ [data])).

(** ** Collaborators that are not part of this file

    [utils] and [constants] are imported by [transports.py]; they are taken
    as parameters. *)

Class Utils := {
  bcc_valid : bytes -> bool;
  add_bcc : bytes -> bytes;
  ensure_bytes : str_or_bytes -> bytes
}.

Class Constants := {
  ACK : string;
  NACK : string;
  LINE_END : string;
  (* [s.encode(constants.ENCODING)] *)
  encode : string -> bytes
}.

(** ** The transport classes *)

(** What a subclass of [BaseTransport] provides.  Methods that assign to
    [self] return the updated object. *)
Class Transport (T : Type) := {
  TRANSPORT_REQUIRES_ADDRESS : bool;
  timeout : T -> Z;
  disconnect : T -> M T;
  _send : T -> bytes -> M unit;
  _recv : T -> nat -> M bytes;
  switch_baudrate : T -> Z -> M T
}.

(** [BaseTransport.send]; the debug log line has no effect on the state. *)
Definition send {T} `{Transport T} (self : T) (data : bytes) : M unit :=
  _send self data.

(** [BaseTransport.recv] *)
Definition recv {T} `{Transport T} (self : T) (chars : nat) : M bytes :=
  _recv self chars.

Module SerialTransport.

(** The [serial.Serial] object held in [self.port]. *)
Record Serial := { baudrate : Z; read_timeout : Z }.

Record t := {
  port_name : string;
  timeout : Z;
  port : option Serial
}.

Definition disconnect (self : t) : M t :=
  match port self with
  | None => raise TransportError
  | Some _ =>
      (* self.port.close(); self.port = None *)
      ret {| port_name := port_name self; timeout := timeout self;
             port := None |}
  end.

Definition _send (self : t) (data : bytes) : M unit :=
  match port self with
  | None => raise TransportError
  | Some _ => resource_write data
  end.

Definition _recv (self : t) (chars : nat) : M bytes :=
  match port self with
  | None => raise TransportError
  | Some _ => resource_read chars
  end.

Definition switch_baudrate (self : t) (baud : Z) : M t :=
  match port self with
  | None => raise TransportError
  | Some _ =>
      ret {| port_name := port_name self; timeout := timeout self;
             port := Some {| baudrate := baud;
                             read_timeout := timeout self |} |}
  end.

End SerialTransport.

Module TcpTransport.

(** The [socket.socket] object held in [self.socket]. *)
Record Socket := { sock_timeout : Z }.

Record t := {
  address : string * Z;
  timeout : Z;
  socket : option Socket
}.

Definition disconnect (self : t) : M t :=
  match socket self with
  | None => raise TransportError
  | Some _ =>
      (* self.socket.close(); self.socket = None *)
      ret {| address := address self; timeout := timeout self;
             socket := None |}
  end.

Definition _send (self : t) (data : bytes) : M unit :=
  match socket self with
  | None => raise TransportError
  | Some _ => resource_write data
  end.

Definition _recv (self : t) (chars : nat) : M bytes :=
  match socket self with
  | None => raise TransportError
  | Some _ => except_OSError (resource_read chars) TransportError
  end.

Definition switch_baudrate (self : t) (baud : Z) : M t :=
  ret self.

End TcpTransport.

#[export] Instance Serial_Transport : Transport SerialTransport.t := {
  TRANSPORT_REQUIRES_ADDRESS := false;
  timeout := SerialTransport.timeout;
  disconnect := SerialTransport.disconnect;
  _send := SerialTransport._send;
  _recv := SerialTransport._recv;
  switch_baudrate := SerialTransport.switch_baudrate
}.

#[export] Instance Tcp_Transport : Transport TcpTransport.t := {
  TRANSPORT_REQUIRES_ADDRESS := true;
  timeout := TcpTransport.timeout;
  disconnect := TcpTransport.disconnect;
  _send := TcpTransport._send;
  _recv := TcpTransport._recv;
  switch_baudrate := TcpTransport.switch_baudrate
}.

(** ** [BaseTransport.read] and [BaseTransport.simple_read] *)

(** The variables of [read] that live across blocks and are set by the
    inner loop. *)
Record block_state := {
  start_char_received : bool;
  start_char : option bytes;
  end_char : option bytes
}.

Definition start_chars : list bytes := [[SOH]; [STX]].
Definition end_chars : list bytes := [[ETX]; [EOT]].

Section Read.

Context {U : Utils} {C : Constants} {T : Type} {TT : Transport T}.

(** The inner [while True] of [read] (lines 55-78): it returns the block
    buffer and the updated flags at [break]. *)
Fixpoint read_block (fuel : nat) (self : T) (start_time : Z)
    (in_data : bytes) (st : block_state) : M (bytes * block_state) :=
  match fuel with
  | O => exhausted
  | S fuel' =>
      b <- recv self 1 ;;
      t <- time ;;
      let duration := t - start_time in
      if duration >? timeout self then raise TimeoutError
      else if negb (start_char_received st) then
        if py_in b start_chars then
          read_block fuel' self start_time (in_data ++ b)
            {| start_char_received := true;
               start_char := Some b;
               end_char := end_char st |}
        else read_block fuel' self start_time in_data st
      else
        if py_in b end_chars then
          ret (in_data ++ b,
               {| start_char_received := start_char_received st;
                  start_char := start_char st;
                  end_char := Some b |})
        else read_block fuel' self start_time (in_data ++ b) st
  end.

(** The outer [while True] of [read] (lines 50-129). *)
Fixpoint read_blocks (fuel : nat) (self : T) (total_data : bytes)
    (packets : Z) (st : block_state) : M bytes :=
  match fuel with
  | O => exhausted
  | S fuel' =>
      start_time <- time ;;
      r <- read_block fuel self start_time [] st ;;
      let in_data := fst r in
      let st := snd r in
      let packets := packets + 1 in
      bcc <- recv self 1 ;;
      let in_data := in_data ++ bcc in
      if opt_bytes_eqb (start_char st) [SOH] then
        ret (total_data ++ in_data)
      else if opt_bytes_eqb (end_char st) [EOT] then
        if negb (bcc_valid in_data) then
          send self (encode NACK) ;;;
          read_blocks fuel' self total_data packets st
        else
          send self (encode ACK) ;;;
          let in_data := drop_last2 in_data ++ encode LINE_END in
          let in_data :=
            if packets >? 1 then drop_first in_data else in_data in
          read_blocks fuel' self (total_data ++ in_data) packets st
      else if opt_bytes_eqb (end_char st) [ETX] then
        if negb (bcc_valid in_data) then
          send self (encode NACK) ;;;
          read_blocks fuel' self total_data packets st
        else
          let in_data :=
            if packets >? 1 then drop_first in_data else in_data in
          let total_data := total_data ++ in_data in
          let total_data :=
            if packets >? 1 then add_bcc (removelast total_data)
            else total_data in
          ret total_data
      else read_blocks fuel' self total_data packets st
  end.

Definition initial_state : block_state :=
  {| start_char_received := false; start_char := None; end_char := None |}.

(** [read(self, timeout=None)].  Every iteration of either loop starts with
    a [recv] that takes one event of the script, so one more than the
    script's length bounds the number of iterations
    ([read_never_exhausted] below). *)
Definition read (self : T) (timeout' : option Z) : M bytes :=
  fun w =>
    let timeout' := py_or timeout' (timeout self) in
    read_blocks (S (List.length (rx w))) self [] 0 initial_state w.

(** The [while True] of [simple_read] (lines 150-170). *)
Fixpoint simple_read_loop (fuel : nat) (self : T)
    (_start_char _end_char : bytes) (start_time : Z)
    (in_data : bytes) (start_char_received : bool) : M bytes :=
  match fuel with
  | O => exhausted
  | S fuel' =>
      b <- recv self 1 ;;
      t <- time ;;
      let duration := t - start_time in
      if duration >? timeout self then raise TimeoutError
      else if negb start_char_received then
        if bytes_eqb b _start_char then
          simple_read_loop fuel' self _start_char _end_char start_time
            (in_data ++ b) true
        else
          simple_read_loop fuel' self _start_char _end_char start_time
            in_data start_char_received
      else
        if bytes_eqb b _end_char then ret (in_data ++ b)
        else
          simple_read_loop fuel' self _start_char _end_char start_time
            (in_data ++ b) start_char_received
  end.

(** [simple_read(self, start_char, end_char, timeout=None)] *)
Definition simple_read (self : T) (start_char end_char : str_or_bytes)
    (timeout' : option Z) : M bytes :=
  fun w =>
    let _start_char := ensure_bytes start_char in
    let _end_char := ensure_bytes end_char in
    let timeout' := py_or timeout' (timeout self) in
    (start_time <- time ;;
     simple_read_loop (S (List.length (rx w))) self _start_char _end_char
       start_time [] false) w.

End Read.

(** ** A concrete checksum unit and constant table

    Used wherever a statement is evaluated on concrete bytes. *)

Module Collaborators.

Definition byte_xor (a b : byte) : byte :=
  match Byte.of_N (N.lxor (Byte.to_N a) (Byte.to_N b)) with
  | Some c => c
  | None => x00
  end.

(** Modelled from the spec: [utils.py] is not among the sources.  The
    block-check byte is the exclusive running accumulation of the input
    bytes. *)
Definition calculate_bcc (data : bytes) : byte :=
  fold_left byte_xor data x00.

(** Modelled from the spec: [utils.add_bcc] appends the trailing checksum
    byte to a buffer. *)
Definition add_bcc (message : bytes) : bytes :=
  message ++ [calculate_bcc message].

(** Modelled from the spec: [utils.bcc_valid] recomputes the checksum over
    all bytes except the last and compares it to the last byte. *)
Definition bcc_valid (message : bytes) : bool :=
  match message with
  | [] => false
  | _ => Byte.eqb (calculate_bcc (removelast message)) (last message x00)
  end.

(** Modelled from the spec: [utils.ensure_bytes] turns a start or end
    character given as text into its byte and leaves bytes as they are. *)
Definition ensure_bytes (x : str_or_bytes) : bytes :=
  match x with
  | Str s => list_byte_of_string s
  | Bytes b => b
  end.

(** Modelled from the spec: [constants.py] is not among the sources.  ACK
    and NACK are single-byte control replies and the line terminator is a
    fixed byte sequence; the ASCII codes ACK (6), NAK (21) and CR LF are
    used, one byte per character. *)
Definition ACK : string := String "006"%char EmptyString.
Definition NACK : string := String "021"%char EmptyString.
Definition LINE_END : string :=
  String "013"%char (String "010"%char EmptyString).
Definition encode : string -> bytes := list_byte_of_string.

End Collaborators.

#[export] Instance concrete_utils : Utils := {
  bcc_valid := Collaborators.bcc_valid;
  add_bcc := Collaborators.add_bcc;
  ensure_bytes := Collaborators.ensure_bytes
}.

#[export] Instance concrete_constants : Constants := {
  ACK := Collaborators.ACK;
  NACK := Collaborators.NACK;
  LINE_END := Collaborators.LINE_END;
  encode := Collaborators.encode
}.

(** ** Byte streams with arrival times

    A [timed] stream gives each byte the time its [recv] call blocks;
    [wire] delivers one byte per call. *)

Definition timed := list (Z * byte).

Definition wire (s : timed) : list rx_event :=
  map (fun p => Arrive (fst p) [snd p]) s.

Definition data_of (s : timed) : bytes := map snd s.

Definition delays (s : timed) : list Z := map fst s.

Definition total (ds : list Z) : Z := fold_right Z.add 0 ds.

(** Every call returns while the time elapsed since [start_time] is still
    within [limit]. *)
Fixpoint in_time (limit elapsed : Z) (ds : list Z) : bool :=
  match ds with
  | [] => true
  | dt :: ds' => (elapsed + dt <=? limit) && in_time limit (elapsed + dt) ds'
  end.

Definition free_of (cs : list bytes) (p : bytes) : bool :=
  forallb (fun b => negb (py_in [b] cs)) p.

(** Calls that return arbitrary data (possibly nothing), none of it a start
    character. *)
Definition chunks (q : list (Z * bytes)) : list rx_event :=
  map (fun p => Arrive (fst p) (snd p)) q.

Definition no_start (q : list (Z * bytes)) : bool :=
  forallb (fun p => negb (py_in (firstn 1 (snd p)) start_chars)) q.

(** A block as the peer puts it on the wire: lead byte, payload, end byte,
    checksum byte. *)
Record frame := {
  lead : Z * byte;
  body : timed;
  trail : Z * byte;
  check : Z * byte
}.

Definition framed (f : frame) : timed := lead f :: body f ++ [trail f].

Definition frame_events (f : frame) : list rx_event :=
  wire (framed f ++ [check f]).

Definition frame_bytes (f : frame) : bytes := data_of (framed f ++ [check f]).

Definition frame_span (f : frame) : Z := total (delays (framed f ++ [check f])).

(** [f] starts with [s], ends with [e], and no end character occurs in its
    payload. *)
Definition well_framed (s e : byte) (f : frame) : bool :=
  Byte.eqb (snd (lead f)) s && Byte.eqb (snd (trail f)) e
  && free_of end_chars (data_of (body f)).

(** Every byte of [f] up to its end byte arrives within [limit] of the
    moment the block was started. *)
Definition on_time (limit : Z) (f : frame) : bool :=
  in_time limit 0 (delays (framed f)).

(** The transport holds an open resource: receiving hands over what the
    resource delivers and sending writes to it. *)
Definition online {T} `{Transport T} (self : T) : Prop :=
  (forall chars n dt data rest t,
      _recv self chars (mkWorld n (Arrive dt data :: rest) t)
      = (Ok (firstn chars data), mkWorld (n + dt) rest t))
  /\ (forall data w,
         _send self data w = (Ok tt, mkWorld (now w) (rx w) (tx w ++ [data]))).

Definition open_serial (name : string) (tmo baud : Z) : SerialTransport.t :=
  {| SerialTransport.port_name := name;
     SerialTransport.timeout := tmo;
     SerialTransport.port :=
       Some {| SerialTransport.baudrate := baud;
               SerialTransport.read_timeout := tmo |} |}.

Definition closed_serial (name : string) (tmo : Z) : SerialTransport.t :=
  {| SerialTransport.port_name := name;
     SerialTransport.timeout := tmo;
     SerialTransport.port := None |}.

Definition open_tcp (addr : string * Z) (tmo : Z) : TcpTransport.t :=
  {| TcpTransport.address := addr;
     TcpTransport.timeout := tmo;
     TcpTransport.socket := Some {| TcpTransport.sock_timeout := tmo |} |}.

Definition closed_tcp (addr : string * Z) (tmo : Z) : TcpTransport.t :=
  {| TcpTransport.address := addr;
     TcpTransport.timeout := tmo;
     TcpTransport.socket := None |}.

(** The flags of [read] once a block that began with STX has been taken
    in. *)
Definition stx_state (e : bytes) : block_state :=
  {| start_char_received := true; start_char := Some [STX];
     end_char := Some e |}.

(** [read] is at the top of its outer loop and has seen nothing but blocks
    that began with STX. *)
Definition awaiting (st : block_state) : Prop :=
  st = {| start_char_received := false; start_char := None;
          end_char := None |}
  \/ exists e0, st = stx_state e0.

(** A block that [read] accepts: it begins with STX, ends with [e], arrives
    in time and carries a checksum that [bcc_valid] accepts. *)
Definition good_block `{Utils} (limit : Z) (e : byte) (f : frame) : bool :=
  well_framed STX e f && on_time limit f && bcc_valid (frame_bytes f).

(** The payloads of partial blocks, each followed by the line terminator. *)
Definition joined `{Constants} (ps : list frame) : bytes :=
  List.concat (map (fun f => data_of (body f) ++ encode LINE_END) ps).

(** All the events of a sequence of blocks, and the time they take. *)
Definition stream (fs : list frame) : list rx_event :=
  List.concat (map frame_events fs).

Definition stream_span (fs : list frame) : Z := total (map frame_span fs).

(** A block that does not end the read: a partial block (whether its
    checksum is accepted or not) or a final block whose checksum is
    rejected.  It arrives within [limit] of its own start. *)
Definition passing_block `{Utils} (limit : Z) (f : frame) : bool :=
  on_time limit f
  && (well_framed STX EOT f
      || (well_framed STX ETX f && negb (bcc_valid (frame_bytes f)))).

(** What [read] answers to each of those blocks. *)
Definition replies `{Utils} `{Constants} (fs : list frame) : list bytes :=
  map (fun f => if bcc_valid (frame_bytes f) then encode ACK
                else encode NACK) fs.

(** ** Concrete transports and blocks *)

Definition example_port : SerialTransport.t :=
  open_serial "/dev/ttyUSB0" 10 300.

Definition example_socket : TcpTransport.t :=
  open_tcp ("192.0.2.1"%string, 8000) 10.

(** A block whose lead byte arrives after [d] ticks and whose other bytes
    follow at once. *)
Definition block (d : Z) (s : byte) (payload : bytes) (e c : byte) : frame :=
  {| lead := (d, s);
     body := map (fun b => (0, b)) payload;
     trail := (0, e);
     check := (0, c) |}.

(** Bytes that all arrive at once. *)
Definition at_once (bs : bytes) : list rx_event :=
  wire (map (fun b => (0, b)) bs).

(** The call took at least one event of the script, unless it failed or
    hung; it never reports that the iteration bound was reached. *)
Definition consumed {A} (w : World) (r : outcome A * World) : Prop :=
  match r with
  | (Ok _, w') => (List.length (rx w') < List.length (rx w))%nat
  | (Exhausted, _) => False
  | _ => True
  end.

(** A transport whose [_recv] takes an event of the script each time it
    returns, and whose [_send] leaves the script alone. *)
Definition consuming {T} `{Transport T} (self : T) : Prop :=
  (forall chars w, consumed w (_recv self chars w))
  /\ (forall data w,
         match _send self data w with
         | (Ok _, w') => rx w' = rx w
         | (Exhausted, _) => False
         | _ => True
         end).

(** ** Further vocabulary for statements about whole calls *)

(** What the inner loops take from a sequence of calls: the first byte of
    what each call returns, nothing for a call that returns nothing. *)
Definition flat (q : list (Z * bytes)) : bytes :=
  List.concat (map (fun p => firstn 1 (snd p)) q).

(** Calls that return arbitrary data (possibly nothing), none of it an end
    character. *)
Definition no_end (q : list (Z * bytes)) : bool :=
  forallb (fun p => negb (py_in (firstn 1 (snd p)) end_chars)) q.

(** The blocks whose checksum [bcc_valid] accepts. *)
Definition accepted `{Utils} (fs : list frame) : list frame :=
  filter (fun f => bcc_valid (frame_bytes f)) fs.

(** The flags of [read] after a sequence of blocks that began with STX. *)
Fixpoint state_after (st : block_state) (rs : list frame) : block_state :=
  match rs with
  | [] => st
  | r :: rs' => state_after (stx_state [snd (trail r)]) rs'
  end.

(** What a block that does not end the read adds to the message when the
    packet counter stands at [packets] before it: nothing if it is
    rejected, its payload and the line terminator if it is accepted, with
    the STX in front if it is the first block counted. *)
Definition gain `{Utils} `{Constants} (packets : Z) (r : frame) : bytes :=
  if bcc_valid (frame_bytes r) then
    (if packets + 1 >? 1 then [] else [STX])
    ++ data_of (body r) ++ encode LINE_END
  else [].

Fixpoint gathered `{Utils} `{Constants} (packets : Z) (rs : list frame)
    : bytes :=
  match rs with
  | [] => []
  | r :: rs' => gain packets r ++ gathered (packets + 1) rs'
  end.

(** Receiving writes nothing, and sending writes the data or nothing. *)
Definition honest {T} `{Transport T} (self : T) : Prop :=
  (forall chars w, tx (snd (_recv self chars w)) = tx w)
  /\ (forall data w,
         tx (snd (_send self data w)) = tx w
         \/ tx (snd (_send self data w)) = tx w ++ [data]).

(** Receiving returns no more bytes than were asked for. *)
Definition bounded_recv {T} `{Transport T} (self : T) : Prop :=
  forall chars w b w',
    _recv self chars w = (Ok b, w') -> (List.length b <= chars)%nat.

(** Every element is the ACK or the NACK reply. *)
Definition only_replies `{Constants} (l : list bytes) : Prop :=
  Forall (fun m => m = encode ACK \/ m = encode NACK) l.

(** The beginning of a block of which the end character has not arrived
    yet: nothing at all, or an STX and what follows it. *)
Definition stx_led (s : timed) : bool :=
  match s with
  | [] => true
  | p :: _ => Byte.eqb (snd p) STX
  end.

(** Calls that return arbitrary data (possibly nothing), none of which
    [simple_read] takes for the delimiter [c]. *)
Definition free_chunks (c : bytes) (q : list (Z * bytes)) : bool :=
  forallb (fun p => negb (bytes_eqb (firstn 1 (snd p)) c)) q.

(** A failure of the resource's read call reaches the caller of [_recv] as
    the exception [e]. *)
Definition faults_as {T} `{Transport T} (e : exn) (self : T) : Prop :=
  forall chars n dt rest t,
    _recv self chars (mkWorld n (Fault dt :: rest) t)
    = (Raise e, mkWorld (n + dt) rest t).

(** ** Basic facts *)

Lemma bytes_eqb_refl (a : bytes) : bytes_eqb a a = true.
Proof.
  induction a as [|x a IH]; simpl; [reflexivity|].
  rewrite IH, andb_true_r. apply Byte.byte_dec_lb. reflexivity.
Qed.

Lemma bytes_eqb_eq (a b : bytes) : bytes_eqb a b = true -> a = b.
Proof.
  revert b. induction a as [|x a IH]; intros [|y b]; simpl; try discriminate.
  - reflexivity.
  - intros H. apply andb_prop in H. destruct H as [Hx Hab].
    apply Byte.byte_dec_bl in Hx. f_equal; auto.
Qed.

Lemma serial_online (name : string) (tmo baud : Z) :
  online (open_serial name tmo baud).
Proof. split; reflexivity. Qed.

Lemma tcp_online (addr : string * Z) (tmo : Z) : online (open_tcp addr tmo).
Proof. split; reflexivity. Qed.

(** ** One iteration of the loops on an open transport *)

Section Steps.

Context {U : Utils} {C : Constants} {T : Type} {TT : Transport T}.
Variable self : T.
Hypothesis Hon : online self.

Lemma recv_arrive (chars : nat) (n dt : Z) (data : bytes)
    (rest : list rx_event) (t : list bytes) :
  recv self chars (mkWorld n (Arrive dt data :: rest) t)
  = (Ok (firstn chars data), mkWorld (n + dt) rest t).
Proof. unfold recv. apply (proj1 Hon). Qed.

Lemma send_written (data : bytes) (n : Z) (r : list rx_event)
    (t : list bytes) :
  send self data (mkWorld n r t) = (Ok tt, mkWorld n r (t ++ [data])).
Proof. unfold send. apply (proj2 Hon). Qed.

(** The body of the inner loop of [read], for a call that returns [data]. *)
Lemma read_block_step (fuel : nat) (start : Z) (in_data : bytes)
    (st : block_state) (n dt : Z) (data : bytes) (rest : list rx_event)
    (t : list bytes) :
  read_block (S fuel) self start in_data st
    (mkWorld n (Arrive dt data :: rest) t)
  = let b := firstn 1 data in
    let w' := mkWorld (n + dt) rest t in
    if n + dt - start >? timeout self then (Raise TimeoutError, w')
    else if negb (start_char_received st) then
      if py_in b start_chars then
        read_block fuel self start (in_data ++ b)
          {| start_char_received := true; start_char := Some b;
             end_char := end_char st |} w'
      else read_block fuel self start in_data st w'
    else if py_in b end_chars then
      (Ok (in_data ++ b,
           {| start_char_received := start_char_received st;
              start_char := start_char st; end_char := Some b |}), w')
    else read_block fuel self start (in_data ++ b) st w'.
Proof.
  cbn [read_block]. unfold bind at 1. rewrite recv_arrive.
  unfold bind at 1, time at 1. cbn [now].
  destruct (n + dt - start >? timeout self); [reflexivity|].
  cbv zeta.
  destruct (negb (start_char_received st)).
  - destruct (py_in (firstn 1 data) start_chars); reflexivity.
  - destruct (py_in (firstn 1 data) end_chars); reflexivity.
Qed.

Lemma gtb_within (a b : Z) : a <= b -> (a >? b) = false.
Proof. intros H. rewrite Z.gtb_ltb. apply Z.ltb_ge. exact H. Qed.

Lemma total_app (a b : list Z) : total (a ++ b) = total a + total b.
Proof.
  induction a as [|x a IH]; [reflexivity|].
  change (total (x :: a ++ b) = x + total a + total b).
  change (total (x :: a ++ b)) with (x + total (a ++ b)).
  rewrite IH. lia.
Qed.

Lemma in_time_app (limit e : Z) (a b : list Z) :
  in_time limit e (a ++ b)
  = in_time limit e a && in_time limit (e + total a) b.
Proof.
  revert e. induction a as [|x a IH]; intros e.
  - cbn. rewrite Z.add_0_r. reflexivity.
  - cbn [in_time app]. change (total (x :: a)) with (x + total a).
    rewrite IH, andb_assoc, Z.add_assoc. reflexivity.
Qed.

(** A call that returns after the deadline ends [read] with a timeout
    error, whatever it delivers. *)
Lemma read_block_late (fuel : nat) (start : Z) (in_data : bytes)
    (st : block_state) (n dt : Z) (data : bytes) (rest : list rx_event)
    (t : list bytes) :
  timeout self < n + dt - start ->
  read_block (S fuel) self start in_data st
    (mkWorld n (Arrive dt data :: rest) t)
  = (Raise TimeoutError, mkWorld (n + dt) rest t).
Proof.
  intros Hlate. rewrite read_block_step. cbv zeta.
  replace (n + dt - start >? timeout self) with true; [reflexivity|].
  symmetry. apply Z.gtb_lt. lia.
Qed.

(** Before the start character: whatever arrives is dropped. *)
Lemma read_block_quiet (q : list (Z * bytes)) :
  forall (k : nat) (start : Z) (in_data : bytes) (st : block_state)
         (n : Z) (rest : list rx_event) (t : list bytes),
    start_char_received st = false ->
    no_start q = true ->
    in_time (timeout self) (n - start) (map fst q) = true ->
    read_block (List.length q + k) self start in_data st
      (mkWorld n (chunks q ++ rest) t)
    = read_block k self start in_data st
        (mkWorld (n + total (map fst q)) rest t).
Proof.
  induction q as [|[dt data] q IH]; intros k start in_data st n rest t Hst Hq Ht.
  - simpl. rewrite Z.add_0_r. reflexivity.
  - change (negb (py_in (firstn 1 data) start_chars) && no_start q = true)
      in Hq.
    change ((n - start + dt <=? timeout self)
            && in_time (timeout self) (n - start + dt) (map fst q) = true)
      in Ht.
    apply andb_prop in Hq. destruct Hq as [Hd Hq].
    apply andb_prop in Ht. destruct Ht as [Hdt Ht].
    apply negb_true_iff in Hd.
    change (chunks ((dt, data) :: q) ++ rest)
      with (Arrive dt data :: chunks q ++ rest).
    change (List.length ((dt, data) :: q) + k)%nat
      with (S (List.length q + k)).
    rewrite read_block_step. cbv zeta.
    replace (n + dt - start >? timeout self) with false
      by (symmetry; apply gtb_within; apply Z.leb_le in Hdt; lia).
    rewrite Hst, Hd. cbn [negb].
    rewrite IH; auto.
    + change (total (map fst ((dt, data) :: q)))
        with (dt + total (map fst q)).
      rewrite Z.add_assoc. reflexivity.
    + replace (n + dt - start) with (n - start + dt) by lia. exact Ht.
Qed.

(** After the start character: whatever arrives short of an end character
    is appended. *)
Lemma read_block_body (s : timed) :
  forall (k : nat) (start : Z) (in_data : bytes) (st : block_state)
         (n : Z) (rest : list rx_event) (t : list bytes),
    start_char_received st = true ->
    free_of end_chars (data_of s) = true ->
    in_time (timeout self) (n - start) (delays s) = true ->
    read_block (List.length s + k) self start in_data st
      (mkWorld n (wire s ++ rest) t)
    = read_block k self start (in_data ++ data_of s) st
        (mkWorld (n + total (delays s)) rest t).
Proof.
  induction s as [|[dt b] s IH]; intros k start in_data st n rest t Hst Hs Ht.
  - simpl. rewrite Z.add_0_r, app_nil_r. reflexivity.
  - change (negb (py_in [b] end_chars) && free_of end_chars (data_of s)
            = true) in Hs.
    change ((n - start + dt <=? timeout self)
            && in_time (timeout self) (n - start + dt) (delays s) = true)
      in Ht.
    apply andb_prop in Hs. destruct Hs as [Hb Hs].
    apply andb_prop in Ht. destruct Ht as [Hdt Ht].
    apply negb_true_iff in Hb.
    change (wire ((dt, b) :: s) ++ rest)
      with (Arrive dt [b] :: wire s ++ rest).
    change (List.length ((dt, b) :: s) + k)%nat
      with (S (List.length s + k)).
    rewrite read_block_step. cbv zeta.
    replace (n + dt - start >? timeout self) with false
      by (symmetry; apply gtb_within; apply Z.leb_le in Hdt; lia).
    rewrite Hst. cbn [negb firstn]. rewrite Hb.
    rewrite IH; auto.
    + change (total (delays ((dt, b) :: s))) with (dt + total (delays s)).
      change (data_of ((dt, b) :: s)) with ([b] ++ data_of s).
      rewrite Z.add_assoc, app_assoc. reflexivity.
    + replace (n + dt - start) with (n - start + dt) by lia. exact Ht.
Qed.

(** The end character closes the block. *)
Lemma read_block_end (k : nat) (start : Z) (in_data : bytes)
    (st : block_state) (n dt : Z) (e : byte) (rest : list rx_event)
    (t : list bytes) :
  start_char_received st = true ->
  py_in [e] end_chars = true ->
  n + dt - start <= timeout self ->
  read_block (S k) self start in_data st
    (mkWorld n (Arrive dt [e] :: rest) t)
  = (Ok (in_data ++ [e],
         {| start_char_received := true; start_char := start_char st;
            end_char := Some [e] |}),
     mkWorld (n + dt) rest t).
Proof.
  intros Hst He Hdt. rewrite read_block_step. cbv zeta.
  replace (n + dt - start >? timeout self) with false
    by (symmetry; apply gtb_within; lia).
  rewrite Hst. cbn [negb firstn]. rewrite He. reflexivity.
Qed.

Lemma well_framed_inv (s e : byte) (f : frame) :
  well_framed s e f = true ->
  snd (lead f) = s /\ snd (trail f) = e
  /\ free_of end_chars (data_of (body f)) = true.
Proof.
  unfold well_framed. intros H.
  apply andb_prop in H. destruct H as [H Hb].
  apply andb_prop in H. destruct H as [Hs He].
  apply Byte.byte_dec_bl in Hs. apply Byte.byte_dec_bl in He. auto.
Qed.

(** The inner loop on a whole block that begins with STX. *)
Lemma read_block_frame (f : frame) (e : byte) (k : nat) (st : block_state)
    (n : Z) (rest : list rx_event) (t : list bytes) :
  awaiting st ->
  well_framed STX e f = true ->
  py_in [e] end_chars = true ->
  on_time (timeout self) f = true ->
  (List.length (framed f) <= k)%nat ->
  read_block k self n [] st (mkWorld n (wire (framed f) ++ rest) t)
  = (Ok (data_of (framed f), stx_state [e]),
     mkWorld (n + total (delays (framed f))) rest t).
Proof.
  intros Hst Hwf He Ht Hk.
  destruct (well_framed_inv _ _ _ Hwf) as (Hs & Htr & Hfree).
  destruct f as [[dl sl] bd [dtr etr] chk]. cbn [lead trail body snd] in *.
  subst sl etr. unfold on_time, framed in *. cbn [lead trail body] in *.
  unfold delays in Ht. rewrite map_cons, map_app in Ht. cbn [map fst] in Ht.
  change (in_time (timeout self) 0 (dl :: map fst bd ++ [dtr]))
    with ((0 + dl <=? timeout self)
          && in_time (timeout self) (0 + dl) (map fst bd ++ [dtr])) in Ht.
  rewrite in_time_app in Ht.
  apply andb_prop in Ht. destruct Ht as [Hdl Ht].
  apply andb_prop in Ht. destruct Ht as [Hbd Hend].
  cbn [in_time] in Hend. rewrite andb_true_r in Hend.
  apply Z.leb_le in Hdl. apply Z.leb_le in Hend.
  cbn [List.length] in Hk. rewrite length_app in Hk. cbn [List.length] in Hk.
  destruct k as [|k]; [lia|].
  assert (Hk' : exists k', k = (List.length bd + S k')%nat)
    by (exists (k - List.length bd - 1)%nat; lia).
  destruct Hk' as [k' ->].
  unfold wire. rewrite map_cons, map_app. cbn [map fst snd].
  rewrite <- app_comm_cons, <- app_assoc.
  rewrite read_block_step. cbv zeta.
  rewrite (gtb_within (n + dl - n)) by lia.
  assert (Hfirst :
    forall st1, start_char_received st1 = true ->
                start_char st1 = Some [STX] ->
      read_block (List.length bd + S k') self n [STX] st1
        (mkWorld (n + dl) (wire bd ++ [Arrive dtr [e]] ++ rest) t)
      = (Ok (data_of ((dl, STX) :: bd ++ [(dtr, e)]), stx_state [e]),
         mkWorld (n + total (delays ((dl, STX) :: bd ++ [(dtr, e)])))
           rest t)).
  { intros st1 Hr Hsc.
    rewrite read_block_body; auto.
    - cbn [app]. rewrite read_block_end; auto.
      + unfold stx_state. rewrite Hsc.
        unfold data_of, delays. rewrite !map_cons, !map_app.
        cbn [map fst snd app]. unfold total at 2.
        cbn [fold_right]. fold (total (map fst bd ++ [dtr])).
        rewrite total_app. cbn. rewrite Z.add_0_r, !Z.add_assoc.
        reflexivity.
      + unfold delays. lia.
    - replace (n + dl - n) with (0 + dl) by lia. exact Hbd. }
  destruct Hst as [-> | [e0 ->]]; cbn [start_char_received negb firstn].
  - change (py_in [STX] start_chars) with true. cbv iota.
    apply Hfirst; reflexivity.
  - change (py_in [STX] end_chars) with false. cbv iota.
    apply Hfirst; reflexivity.
Qed.

Lemma frame_events_split (f : frame) :
  frame_events f
  = wire (framed f) ++ [Arrive (fst (check f)) [snd (check f)]].
Proof. unfold frame_events, wire. rewrite map_app. reflexivity. Qed.

Lemma frame_bytes_split (f : frame) :
  frame_bytes f = data_of (framed f) ++ [snd (check f)].
Proof. unfold frame_bytes, data_of. rewrite map_app. reflexivity. Qed.

Lemma frame_span_split (f : frame) :
  frame_span f = total (delays (framed f)) + fst (check f).
Proof.
  unfold frame_span, delays. rewrite map_app, total_app.
  cbn. rewrite Z.add_0_r. reflexivity.
Qed.

(** One turn of the outer loop on a block that begins with STX, up to the
    point where the checksum byte has been appended. *)
Lemma read_blocks_frame (f : frame) (e : byte) (k : nat)
    (total_data : bytes) (packets : Z) (st : block_state) (n : Z)
    (rest : list rx_event) (t : list bytes) :
  awaiting st ->
  well_framed STX e f = true ->
  py_in [e] end_chars = true ->
  on_time (timeout self) f = true ->
  (List.length (framed f) <= S k)%nat ->
  read_blocks (S k) self total_data packets st
    (mkWorld n (frame_events f ++ rest) t)
  = (if Byte.eqb e EOT then
       if negb (bcc_valid (frame_bytes f)) then
         send self (encode NACK) ;;;
         read_blocks k self total_data (packets + 1) (stx_state [e])
       else
         send self (encode ACK) ;;;
         read_blocks k self
           (total_data ++
            (if packets + 1 >? 1
             then drop_first (drop_last2 (frame_bytes f) ++ encode LINE_END)
             else drop_last2 (frame_bytes f) ++ encode LINE_END))
           (packets + 1) (stx_state [e])
     else if Byte.eqb e ETX then
       if negb (bcc_valid (frame_bytes f)) then
         send self (encode NACK) ;;;
         read_blocks k self total_data (packets + 1) (stx_state [e])
       else
         ret (if packets + 1 >? 1
              then add_bcc (removelast
                              (total_data ++ drop_first (frame_bytes f)))
              else total_data ++ frame_bytes f)
     else read_blocks k self total_data (packets + 1) (stx_state [e]))
      (mkWorld (n + frame_span f) rest t).
Proof.
  intros Hst Hwf He Ht Hk.
  cbn [read_blocks]. unfold bind at 1, time at 1. cbn [now].
  rewrite frame_events_split, <- app_assoc.
  unfold bind at 1. rewrite (read_block_frame f e); auto.
  cbn [fst snd app]. unfold bind at 1. rewrite recv_arrive.
  cbn [firstn]. rewrite <- frame_bytes_split.
  rewrite <- Z.add_assoc, <- frame_span_split.
  cbn [stx_state start_char end_char opt_bytes_eqb].
  change (bytes_eqb [STX] [SOH]) with false. cbv iota.
  change (bytes_eqb [e] [EOT]) with (Byte.eqb e EOT && true).
  change (bytes_eqb [e] [ETX]) with (Byte.eqb e ETX && true).
  rewrite !andb_true_r.
  destruct (Byte.eqb e EOT).
  - destruct (bcc_valid (frame_bytes f)); cbn [negb]; [|reflexivity].
    destruct (packets + 1 >? 1); reflexivity.
  - destruct (Byte.eqb e ETX); [|reflexivity].
    destruct (bcc_valid (frame_bytes f)); cbn [negb]; [|reflexivity].
    destruct (packets + 1 >? 1); reflexivity.
Qed.

Lemma drop_last2_app (l : bytes) (a b : byte) :
  drop_last2 (l ++ [a; b]) = l.
Proof.
  unfold drop_last2. rewrite length_app. cbn [List.length].
  replace (List.length l + 2 - 2)%nat with (List.length l + 0)%nat by lia.
  rewrite firstn_app_2. cbn. apply app_nil_r.
Qed.

Lemma frame_bytes_shape (s e : byte) (f : frame) :
  well_framed s e f = true ->
  frame_bytes f = s :: data_of (body f) ++ [e; snd (check f)].
Proof.
  intros Hwf. destruct (well_framed_inv _ _ _ Hwf) as (Hs & He & _).
  rewrite frame_bytes_split. unfold framed, data_of.
  rewrite map_cons, map_app. cbn [map]. rewrite Hs, He.
  cbn [app]. rewrite <- app_assoc. reflexivity.
Qed.

Lemma frame_events_length (f : frame) :
  List.length (frame_events f) = S (List.length (framed f)).
Proof.
  rewrite frame_events_split, length_app. unfold wire.
  rewrite length_map. cbn. lia.
Qed.

Lemma good_block_inv (limit : Z) (e : byte) (f : frame) :
  good_block limit e f = true ->
  well_framed STX e f = true /\ on_time limit f = true
  /\ bcc_valid (frame_bytes f) = true.
Proof.
  unfold good_block. intros H.
  apply andb_prop in H. destruct H as [H Hv].
  apply andb_prop in H. destruct H as [Hw Ht]. auto.
Qed.

(** A block whose checksum is rejected: NACK, and the loop starts over
    with the packet counter advanced. *)
Lemma read_blocks_nack (f : frame) (e : byte) (k : nat)
    (total_data : bytes) (packets : Z) (st : block_state) (n : Z)
    (rest : list rx_event) (t : list bytes) :
  awaiting st ->
  well_framed STX e f = true ->
  py_in [e] end_chars = true ->
  on_time (timeout self) f = true ->
  bcc_valid (frame_bytes f) = false ->
  (List.length (framed f) <= S k)%nat ->
  read_blocks (S k) self total_data packets st
    (mkWorld n (frame_events f ++ rest) t)
  = read_blocks k self total_data (packets + 1) (stx_state [e])
      (mkWorld (n + frame_span f) rest (t ++ [encode NACK])).
Proof.
  intros Hst Hwf He Ht Hv Hk.
  rewrite (read_blocks_frame f e); auto. rewrite Hv. cbn [negb].
  unfold py_in, end_chars in He. cbn [existsb bytes_eqb] in He.
  rewrite !andb_true_r, orb_false_r in He.
  destruct (Byte.eqb e EOT).
  - unfold bind. rewrite send_written. reflexivity.
  - destruct (Byte.eqb e ETX); [|discriminate].
    unfold bind. rewrite send_written. reflexivity.
Qed.

(** A valid partial block: ACK, and its payload joins the message. *)
Lemma read_blocks_ack (f : frame) (k : nat)
    (total_data : bytes) (packets : Z) (st : block_state) (n : Z)
    (rest : list rx_event) (t : list bytes) :
  awaiting st ->
  good_block (timeout self) EOT f = true ->
  (List.length (framed f) <= S k)%nat ->
  read_blocks (S k) self total_data packets st
    (mkWorld n (frame_events f ++ rest) t)
  = read_blocks k self
      (total_data ++
       (if packets + 1 >? 1 then [] else [STX])
       ++ data_of (body f) ++ encode LINE_END)
      (packets + 1) (stx_state [EOT])
      (mkWorld (n + frame_span f) rest (t ++ [encode ACK])).
Proof.
  intros Hst Hg Hk.
  destruct (good_block_inv _ _ _ Hg) as (Hwf & Ht & Hv).
  rewrite (read_blocks_frame f EOT); auto.
  change (Byte.eqb EOT EOT) with true. cbv iota.
  rewrite Hv. cbn [negb].
  unfold bind. rewrite send_written.
  rewrite (frame_bytes_shape _ _ _ Hwf).
  rewrite app_comm_cons, drop_last2_app.
  destruct (packets + 1 >? 1); reflexivity.
Qed.

(** A valid final block ends the read. *)
Lemma read_blocks_final (f : frame) (k : nat)
    (total_data : bytes) (packets : Z) (st : block_state) (n : Z)
    (rest : list rx_event) (t : list bytes) :
  awaiting st ->
  good_block (timeout self) ETX f = true ->
  (List.length (framed f) <= S k)%nat ->
  read_blocks (S k) self total_data packets st
    (mkWorld n (frame_events f ++ rest) t)
  = (Ok (if packets + 1 >? 1
         then add_bcc (total_data ++ data_of (body f) ++ [ETX])
         else total_data ++ frame_bytes f),
     mkWorld (n + frame_span f) rest t).
Proof.
  intros Hst Hg Hk.
  destruct (good_block_inv _ _ _ Hg) as (Hwf & Ht & Hv).
  rewrite (read_blocks_frame f ETX); auto.
  change (Byte.eqb ETX EOT) with false.
  change (Byte.eqb ETX ETX) with true. cbv iota.
  rewrite Hv. cbn [negb]. unfold ret.
  destruct (packets + 1 >? 1); [|reflexivity].
  rewrite (frame_bytes_shape _ _ _ Hwf). cbn [drop_first skipn].
  replace (total_data ++ data_of (body f) ++ [ETX; snd (check f)])
    with ((total_data ++ data_of (body f) ++ [ETX]) ++ [snd (check f)])
    by (rewrite <- !app_assoc; reflexivity).
  rewrite removelast_last. reflexivity.
Qed.


Lemma stream_cons (f : frame) (fs : list frame) :
  stream (f :: fs) = frame_events f ++ stream fs.
Proof. reflexivity. Qed.

Lemma stream_span_cons (f : frame) (fs : list frame) :
  stream_span (f :: fs) = frame_span f + stream_span fs.
Proof. reflexivity. Qed.

Lemma joined_cons (f : frame) (fs : list frame) :
  joined (f :: fs) = (data_of (body f) ++ encode LINE_END) ++ joined fs.
Proof. reflexivity. Qed.

(** Partial blocks after the first, then the final block. *)
Lemma read_blocks_rest (q : frame) (rest : list rx_event) (ps : list frame) :
  forall (k : nat) (total_data : bytes) (packets : Z) (e0 : bytes) (n : Z)
         (t : list bytes),
    1 <= packets ->
    forallb (good_block (timeout self) EOT) ps = true ->
    good_block (timeout self) ETX q = true ->
    (List.length (stream ps ++ frame_events q ++ rest) < k)%nat ->
    read_blocks k self total_data packets (stx_state e0)
      (mkWorld n (stream ps ++ frame_events q ++ rest) t)
    = (Ok (add_bcc (total_data ++ joined ps ++ data_of (body q) ++ [ETX])),
       mkWorld (n + stream_span ps + frame_span q) rest
         (t ++ repeat (encode ACK) (List.length ps))).
Proof.
  induction ps as [|p ps IH]; intros k total_data packets e0 n t Hp Hps Hq Hk.
  - cbn [stream map List.concat app] in *.
    rewrite length_app, frame_events_length in Hk.
    destruct k as [|k]; [lia|].
    rewrite read_blocks_final; auto; [|right; eexists; reflexivity|lia].
    replace (packets + 1 >? 1) with true by (symmetry; apply Z.gtb_lt; lia).
    cbn [List.length repeat joined map List.concat app].
    unfold stream_span. cbn [map total fold_right].
    rewrite Z.add_0_r, app_nil_r. reflexivity.
  - cbn [forallb] in Hps. apply andb_prop in Hps. destruct Hps as [Hg Hps].
    rewrite stream_cons, <- app_assoc in *.
    rewrite length_app, frame_events_length in Hk.
    destruct k as [|k]; [lia|].
    rewrite read_blocks_ack; auto; [|right; eexists; reflexivity|lia].
    replace (packets + 1 >? 1) with true by (symmetry; apply Z.gtb_lt; lia).
    rewrite IH; auto; [|lia|lia].
    rewrite joined_cons, stream_span_cons. cbn [List.length repeat app].
    rewrite <- !app_assoc. cbn [app].
    rewrite !Z.add_assoc. reflexivity.
Qed.

(** Any number of blocks that do not end the read, each in time by its own
    clock, then the final block. *)
Lemma read_blocks_rounds (q : frame) (rest : list rx_event) (rs : list frame) :
  forall (k : nat) (total_data : bytes) (packets : Z) (st : block_state)
         (n : Z) (t : list bytes),
    awaiting st ->
    forallb (passing_block (timeout self)) rs = true ->
    good_block (timeout self) ETX q = true ->
    (List.length (stream rs ++ frame_events q ++ rest) < k)%nat ->
    exists msg,
      read_blocks k self total_data packets st
        (mkWorld n (stream rs ++ frame_events q ++ rest) t)
      = (Ok msg,
         mkWorld (n + stream_span rs + frame_span q) rest (t ++ replies rs)).
Proof.
  induction rs as [|r rs IH]; intros k total_data packets st n t Hst Hrs Hq Hk.
  - cbn [stream map List.concat app] in *.
    rewrite length_app, frame_events_length in Hk.
    destruct k as [|k]; [lia|].
    rewrite read_blocks_final; auto; [|lia].
    eexists. unfold stream_span, replies. cbn [map total fold_right].
    rewrite Z.add_0_r, app_nil_r. reflexivity.
  - cbn [forallb] in Hrs. apply andb_prop in Hrs. destruct Hrs as [Hr Hrs].
    rewrite stream_cons, <- app_assoc in *.
    rewrite length_app, frame_events_length in Hk.
    destruct k as [|k]; [lia|].
    unfold passing_block in Hr. apply andb_prop in Hr.
    destruct Hr as [Ht Hr].
    assert (Hnext : forall e0, awaiting (stx_state e0))
      by (intros e0; right; eexists; reflexivity).
    unfold replies. cbn [map]. fold (replies rs).
    rewrite stream_span_cons.
    destruct (bcc_valid (frame_bytes r)) eqn:Hv.
    + (* accepted: it is a partial block *)
      rewrite andb_false_r, orb_false_r in Hr.
      rewrite read_blocks_ack; auto; [| |lia].
      * destruct (IH k
                   (total_data ++ (if packets + 1 >? 1 then [] else [STX])
                    ++ data_of (body r) ++ encode LINE_END)
                   (packets + 1) (stx_state [EOT]) (n + frame_span r)
                   (t ++ [encode ACK])) as [msg Hmsg]; auto; [lia|].
        exists msg. rewrite Hmsg. rewrite <- !app_assoc, !Z.add_assoc.
        reflexivity.
      * unfold good_block. rewrite Hr, Ht, Hv. reflexivity.
    + (* rejected *)
      rewrite andb_true_r in Hr. apply orb_prop in Hr.
      destruct Hr as [Hr | Hr].
      * rewrite (read_blocks_nack r EOT); auto; [|lia].
        destruct (IH k total_data (packets + 1) (stx_state [EOT])
                    (n + frame_span r) (t ++ [encode NACK]))
          as [msg Hmsg]; auto; [lia|].
        exists msg. rewrite Hmsg. rewrite <- !app_assoc, !Z.add_assoc.
        reflexivity.
      * rewrite (read_blocks_nack r ETX); auto; [|lia].
        destruct (IH k total_data (packets + 1) (stx_state [ETX])
                    (n + frame_span r) (t ++ [encode NACK]))
          as [msg Hmsg]; auto; [lia|].
        exists msg. rewrite Hmsg. rewrite <- !app_assoc, !Z.add_assoc.
        reflexivity.
Qed.


(** The start character, seen for the first time in this call. *)
Lemma read_block_start (k : nat) (start : Z) (in_data : bytes)
    (st : block_state) (n dt : Z) (s : byte) (rest : list rx_event)
    (t : list bytes) :
  start_char_received st = false ->
  py_in [s] start_chars = true ->
  n + dt - start <= timeout self ->
  read_block (S k) self start in_data st
    (mkWorld n (Arrive dt [s] :: rest) t)
  = read_block k self start (in_data ++ [s])
      {| start_char_received := true; start_char := Some [s];
         end_char := end_char st |}
      (mkWorld (n + dt) rest t).
Proof.
  intros Hst Hs Hdt. rewrite read_block_step. cbv zeta.
  rewrite gtb_within by lia.
  rewrite Hst. cbn [negb firstn]. rewrite Hs. reflexivity.
Qed.

(** Once the start character has been seen, everything up to the next end
    character goes into the block buffer and the recorded start character
    stays. *)
Lemma read_block_run (s : timed) (dt : Z) (e : byte) (k : nat) (start : Z)
    (in_data : bytes) (st : block_state) (n : Z) (rest : list rx_event)
    (t : list bytes) :
  start_char_received st = true ->
  free_of end_chars (data_of s) = true ->
  py_in [e] end_chars = true ->
  in_time (timeout self) (n - start) (delays (s ++ [(dt, e)])) = true ->
  (List.length s < k)%nat ->
  read_block k self start in_data st
    (mkWorld n (wire (s ++ [(dt, e)]) ++ rest) t)
  = (Ok (in_data ++ data_of s ++ [e],
         {| start_char_received := true; start_char := start_char st;
            end_char := Some [e] |}),
     mkWorld (n + total (delays (s ++ [(dt, e)]))) rest t).
Proof.
  intros Hst Hs He Ht Hk.
  unfold delays in *. rewrite map_app in *. rewrite in_time_app in Ht.
  apply andb_prop in Ht. destruct Ht as [Hts Hte].
  cbn [map fst in_time] in Hte. rewrite andb_true_r in Hte.
  apply Z.leb_le in Hte.
  assert (Hk' : exists k', k = (List.length s + S k')%nat)
    by (exists (k - List.length s - 1)%nat; lia).
  destruct Hk' as [k' ->].
  unfold wire. rewrite map_app, <- app_assoc. fold (wire s).
  rewrite read_block_body; auto.
  cbn [map fst snd app]. rewrite read_block_end; auto.
  - rewrite total_app. cbn [map fst total fold_right].
    rewrite Z.add_0_r, <- app_assoc, Z.add_assoc. reflexivity.
  - unfold delays. lia.
Qed.

(** *** [simple_read] *)

Lemma simple_read_step (fuel : nat) (sc ec : bytes) (start : Z)
    (in_data : bytes) (seen : bool) (n dt : Z) (data : bytes)
    (rest : list rx_event) (t : list bytes) :
  simple_read_loop (S fuel) self sc ec start in_data seen
    (mkWorld n (Arrive dt data :: rest) t)
  = let b := firstn 1 data in
    let w' := mkWorld (n + dt) rest t in
    if n + dt - start >? timeout self then (Raise TimeoutError, w')
    else if negb seen then
      if bytes_eqb b sc then
        simple_read_loop fuel self sc ec start (in_data ++ b) true w'
      else simple_read_loop fuel self sc ec start in_data seen w'
    else if bytes_eqb b ec then (Ok (in_data ++ b), w')
    else simple_read_loop fuel self sc ec start (in_data ++ b) seen w'.
Proof.
  cbn [simple_read_loop]. unfold bind at 1. rewrite recv_arrive.
  unfold bind at 1, time at 1. cbn [now].
  destruct (n + dt - start >? timeout self); [reflexivity|].
  cbv zeta. destruct (negb seen).
  - destruct (bytes_eqb (firstn 1 data) sc); reflexivity.
  - destruct (bytes_eqb (firstn 1 data) ec); reflexivity.
Qed.

(** Bytes that are not [c] pass: dropped before the start character, kept
    after it. *)
Lemma simple_read_pass (sc ec : bytes) (seen : bool) (s : timed) :
  forall (k : nat) (start : Z) (in_data : bytes) (n : Z)
         (rest : list rx_event) (t : list bytes),
    free_of [if seen then ec else sc] (data_of s) = true ->
    in_time (timeout self) (n - start) (delays s) = true ->
    simple_read_loop (List.length s + k) self sc ec start in_data seen
      (mkWorld n (wire s ++ rest) t)
    = simple_read_loop k self sc ec start
        (if seen then in_data ++ data_of s else in_data) seen
        (mkWorld (n + total (delays s)) rest t).
Proof.
  induction s as [|[dt b] s IH]; intros k start in_data n rest t Hs Ht.
  - cbn. rewrite Z.add_0_r, app_nil_r. destruct seen; reflexivity.
  - change (negb (py_in [b] [if seen then ec else sc])
            && free_of [if seen then ec else sc] (data_of s) = true) in Hs.
    change ((n - start + dt <=? timeout self)
            && in_time (timeout self) (n - start + dt) (delays s) = true)
      in Ht.
    apply andb_prop in Hs. destruct Hs as [Hb Hs].
    apply andb_prop in Ht. destruct Ht as [Hdt Ht].
    apply negb_true_iff in Hb. apply Z.leb_le in Hdt.
    unfold py_in in Hb. cbn [existsb] in Hb. rewrite orb_false_r in Hb.
    change (wire ((dt, b) :: s) ++ rest)
      with (Arrive dt [b] :: wire s ++ rest).
    change (List.length ((dt, b) :: s) + k)%nat
      with (S (List.length s + k)).
    rewrite simple_read_step. cbv zeta.
    rewrite gtb_within by lia. cbn [firstn].
    change (total (delays ((dt, b) :: s))) with (dt + total (delays s)).
    change (data_of ((dt, b) :: s)) with ([b] ++ data_of s).
    destruct seen; cbn [negb]; rewrite Hb; rewrite IH; auto.
    + rewrite Z.add_assoc, app_assoc. reflexivity.
    + replace (n + dt - start) with (n - start + dt) by lia. exact Ht.
    + rewrite Z.add_assoc. reflexivity.
    + replace (n + dt - start) with (n - start + dt) by lia. exact Ht.
Qed.

(** Junk, the start character, a body without the end character, the end
    character: [simple_read] returns the start character, the body and the
    end character, and leaves what follows unread. *)
Lemma simple_read_delimited (start_char end_char : str_or_bytes)
    (timeout' : option Z) (junk text : timed) (d1 d2 : Z) (c1 c2 : byte)
    (n : Z) (rest : list rx_event) (t : list bytes) :
  ensure_bytes start_char = [c1] ->
  ensure_bytes end_char = [c2] ->
  free_of [[c1]] (data_of junk) = true ->
  free_of [[c2]] (data_of text) = true ->
  in_time (timeout self) 0
    (delays (junk ++ (d1, c1) :: text ++ [(d2, c2)])) = true ->
  simple_read self start_char end_char timeout'
    (mkWorld n (wire (junk ++ (d1, c1) :: text ++ [(d2, c2)]) ++ rest) t)
  = (Ok (c1 :: data_of text ++ [c2]),
     mkWorld (n + total (delays (junk ++ (d1, c1) :: text ++ [(d2, c2)])))
       rest t).
Proof.
  intros Hsc Hec Hjunk Htext Ht.
  unfold simple_read. rewrite Hsc, Hec. cbn [rx].
  unfold bind at 1, time at 1. cbn [now].
  unfold delays in *. rewrite map_app, map_cons, map_app in *.
  cbn [map fst] in *.
  rewrite in_time_app in Ht. apply andb_prop in Ht. destruct Ht as [Htj Ht].
  change (in_time (timeout self) (0 + total (map fst junk))
            (d1 :: map fst text ++ [d2]))
    with ((0 + total (map fst junk) + d1 <=? timeout self)
          && in_time (timeout self) (0 + total (map fst junk) + d1)
               (map fst text ++ [d2])) in Ht.
  apply andb_prop in Ht. destruct Ht as [Hd1 Ht].
  rewrite in_time_app in Ht. apply andb_prop in Ht. destruct Ht as [Htt Hd2].
  cbn [in_time] in Hd2. rewrite andb_true_r in Hd2.
  apply Z.leb_le in Hd1. apply Z.leb_le in Hd2.
  unfold wire. rewrite !map_app, map_cons, map_app, <- !app_assoc.
  cbn [map fst snd]. fold (wire junk). fold (wire text).
  rewrite <- app_comm_cons, <- app_assoc.
  replace (S (List.length (wire junk ++ Arrive d1 [c1]
             :: wire text ++ [Arrive d2 [c2]] ++ rest)))
    with (List.length junk
          + S (List.length text + S (S (List.length rest))))%nat
    by (unfold wire; rewrite !length_app; cbn [List.length];
        rewrite !length_app, !length_map; cbn [List.length]; lia).
  rewrite (simple_read_pass [c1] [c2] false junk); auto;
    [|rewrite Z.sub_diag; exact Htj].
  rewrite simple_read_step. cbv zeta.
  rewrite gtb_within by (unfold delays; lia).
  cbn [negb firstn]. rewrite bytes_eqb_refl.
  rewrite (simple_read_pass [c1] [c2] true text); auto.
  - cbn [app]. rewrite simple_read_step. cbv zeta.
    rewrite gtb_within by (unfold delays; lia).
    cbn [negb firstn]. rewrite bytes_eqb_refl.
    rewrite !total_app. cbn [total fold_right]. rewrite total_app.
    cbn [total fold_right]. rewrite Z.add_0_r, !Z.add_assoc.
    reflexivity.
  - unfold delays.
    replace (n + total (map fst junk) + d1 - n)
      with (0 + total (map fst junk) + d1) by lia.
    exact Htt.
Qed.


Lemma removelast_joined (a b : bytes) (x c : byte) :
  removelast (a ++ b ++ [x; c]) = a ++ b ++ [x].
Proof.
  replace (a ++ b ++ [x; c]) with ((a ++ b ++ [x]) ++ [c])
    by (rewrite <- !app_assoc; reflexivity).
  apply removelast_last.
Qed.

(** One turn of the outer loop on a block after the first.  The start flag
    is still set from the first block, so the block buffer is whatever
    arrives up to the end character, here ETX, and the checksum byte. *)
Lemma read_blocks_later (s : timed) (dtr dc : Z) (c : byte) (k : nat)
    (total_data : bytes) (packets : Z) (e0 : bytes) (n : Z)
    (rest : list rx_event) (t : list bytes) :
  free_of end_chars (data_of s) = true ->
  in_time (timeout self) 0 (delays (s ++ [(dtr, ETX)])) = true ->
  (List.length s < S k)%nat ->
  read_blocks (S k) self total_data packets (stx_state e0)
    (mkWorld n (wire (s ++ [(dtr, ETX)]) ++ Arrive dc [c] :: rest) t)
  = (if negb (bcc_valid (data_of s ++ [ETX; c])) then
       send self (encode NACK) ;;;
       read_blocks k self total_data (packets + 1) (stx_state [ETX])
     else
       ret (if packets + 1 >? 1
            then add_bcc (removelast
                            (total_data
                             ++ drop_first (data_of s ++ [ETX; c])))
            else total_data ++ data_of s ++ [ETX; c]))
      (mkWorld (n + total (delays (s ++ [(dtr, ETX)])) + dc) rest t).
Proof.
  intros Hfree Ht Hk.
  cbn [read_blocks]. unfold bind at 1, time at 1. cbn [now].
  unfold bind at 1.
  rewrite (read_block_run s dtr ETX); auto;
    [|rewrite Z.sub_diag; exact Ht].
  cbn [fst snd app stx_state start_char end_char]. unfold bind at 1.
  rewrite recv_arrive. cbn [firstn opt_bytes_eqb].
  change (bytes_eqb [STX] [SOH]) with false.
  change (bytes_eqb [ETX] [EOT]) with false.
  change (bytes_eqb [ETX] [ETX]) with true. cbv iota.
  replace ((data_of s ++ [ETX]) ++ [c]) with (data_of s ++ [ETX; c])
    by (rewrite <- app_assoc; reflexivity).
  destruct (bcc_valid (data_of s ++ [ETX; c])); cbn [negb];
    [|reflexivity].
  destruct (packets + 1 >? 1); reflexivity.
Qed.

End Steps.

(** ** The iteration bound of [read] and [simple_read] is never reached *)

Lemma serial_consuming (self : SerialTransport.t) : consuming self.
Proof.
  split.
  - intros chars w. cbn. unfold SerialTransport._recv.
    destruct (SerialTransport.port self); [|exact I].
    unfold consumed, resource_read.
    destruct (rx w) as [|[dt data|dt] rest]; cbn; auto.
  - intros data w. cbn. unfold SerialTransport._send.
    destruct (SerialTransport.port self); [reflexivity | exact I].
Qed.

Lemma tcp_consuming (self : TcpTransport.t) : consuming self.
Proof.
  split.
  - intros chars w. cbn. unfold TcpTransport._recv.
    destruct (TcpTransport.socket self); [|exact I].
    unfold consumed, except_OSError, resource_read.
    destruct (rx w) as [|[dt data|dt] rest]; cbn; auto.
  - intros data w. cbn. unfold TcpTransport._send.
    destruct (TcpTransport.socket self); [reflexivity | exact I].
Qed.

Section Totality.

Context {U : Utils} {C : Constants} {T : Type} {TT : Transport T}.
Variable self : T.
Hypothesis Hcons : consuming self.

Lemma read_block_bound (k : nat) :
  forall (start : Z) (in_data : bytes) (st : block_state) (w : World),
    (List.length (rx w) < k)%nat ->
    consumed w (read_block k self start in_data st w).
Proof.
  induction k as [|k IH]; intros start in_data st w Hk; [lia|].
  cbn [read_block]. unfold bind at 1, recv.
  pose proof (proj1 Hcons 1%nat w) as Hr. unfold consumed in Hr.
  destruct (_recv self 1 w) as [[b|e| |] w1]; cbv beta iota in Hr |- *;
    try exact I; try contradiction.
  unfold bind at 1, time at 1. cbv beta iota.
  assert (Hrec : forall d s,
             consumed w (read_block k self start d s w1)).
  { intros d s. specialize (IH start d s w1). unfold consumed in IH |- *.
    destruct (read_block k self start d s w1) as [[a|e| |] w2];
      cbv beta iota in IH |- *; auto; try (apply IH; lia).
    assert (List.length (rx w2) < List.length (rx w1))%nat
      by (apply IH; lia).
    lia. }
  destruct (now w1 - start >? timeout self); [exact I|].
  destruct (negb (start_char_received st)).
  - destruct (py_in b start_chars); apply Hrec.
  - destruct (py_in b end_chars); [exact Hr | apply Hrec].
Qed.

Lemma read_blocks_bound (k : nat) :
  forall (total_data : bytes) (packets : Z) (st : block_state) (w : World),
    (List.length (rx w) < k)%nat ->
    fst (read_blocks k self total_data packets st w) <> Exhausted.
Proof.
  induction k as [|k IH]; intros total_data packets st w Hk; [lia|].
  cbn [read_blocks]. unfold bind at 1, time at 1. cbv beta iota.
  unfold bind at 1.
  pose proof (read_block_bound (S k) (now w) [] st w Hk) as Hb.
  unfold consumed in Hb.
  destruct (read_block (S k) self (now w) [] st w) as [[[d st']|e| |] w1];
    cbv beta iota in Hb |- *; try discriminate; try contradiction.
  unfold bind at 1, recv.
  pose proof (proj1 Hcons 1%nat w1) as Hr. unfold consumed in Hr.
  destruct (_recv self 1 w1) as [[b|e| |] w2];
    cbv beta iota in Hr |- *; try discriminate; try contradiction.
  assert (Hsend : forall data d' p' s',
             fst ((send self data ;;; read_blocks k self d' p' s') w2)
             <> Exhausted).
  { intros data d' p' s'. unfold bind, send.
    pose proof (proj2 Hcons data w2) as Hs.
    destruct (_send self data w2) as [[u|e| |] w3];
      cbv beta iota in Hs |- *; try discriminate; try contradiction.
    apply IH. rewrite Hs. lia. }
  cbn [fst snd].
  destruct (opt_bytes_eqb (start_char st') [SOH]); [discriminate|].
  destruct (opt_bytes_eqb (end_char st') [EOT]).
  - destruct (negb (bcc_valid (d ++ b))); apply Hsend.
  - destruct (opt_bytes_eqb (end_char st') [ETX]).
    + destruct (negb (bcc_valid (d ++ b))); [apply Hsend | discriminate].
    + apply IH. lia.
Qed.

Lemma simple_read_loop_bound (sc ec : bytes) (k : nat) :
  forall (start : Z) (in_data : bytes) (seen : bool) (w : World),
    (List.length (rx w) < k)%nat ->
    fst (simple_read_loop k self sc ec start in_data seen w) <> Exhausted.
Proof.
  induction k as [|k IH]; intros start in_data seen w Hk; [lia|].
  cbn [simple_read_loop]. unfold bind at 1, recv.
  pose proof (proj1 Hcons 1%nat w) as Hr. unfold consumed in Hr.
  destruct (_recv self 1 w) as [[b|e| |] w1];
    cbv beta iota in Hr |- *; try discriminate; try contradiction.
  unfold bind at 1, time at 1. cbv beta iota.
  destruct (now w1 - start >? timeout self); [discriminate|].
  destruct (negb seen).
  - destruct (bytes_eqb b sc); apply IH; lia.
  - destruct (bytes_eqb b ec); [discriminate | apply IH; lia].
Qed.

(** [read] and [simple_read] return, raise or hang: the bound on the number
    of iterations is enough for every script. *)
Lemma read_never_exhausted (timeout' : option Z) (w : World) :
  fst (read self timeout' w) <> Exhausted.
Proof. unfold read. apply read_blocks_bound. lia. Qed.

Lemma simple_read_never_exhausted (start_char end_char : str_or_bytes)
    (timeout' : option Z) (w : World) :
  fst (simple_read self start_char end_char timeout' w) <> Exhausted.
Proof.
  unfold simple_read, bind, time. apply simple_read_loop_bound. lia.
Qed.

End Totality.

(** ** The checksum unit of [Collaborators] *)

Lemma add_bcc_valid (d : bytes) :
  Collaborators.bcc_valid (Collaborators.add_bcc d) = true.
Proof.
  unfold Collaborators.bcc_valid, Collaborators.add_bcc.
  destruct (d ++ [Collaborators.calculate_bcc d]) eqn:E.
  - destruct d; discriminate E.
  - rewrite <- E, removelast_last, last_last.
    apply Byte.byte_dec_lb. reflexivity.
Qed.

Lemma add_bcc_appends (d : bytes) :
  exists c, Collaborators.add_bcc d = d ++ [c].
Proof. exists (Collaborators.calculate_bcc d). reflexivity. Qed.

(** ** The claims *)

(** C1: a message split into one or more valid partial blocks (EOT) and a
    valid final block (ETX) is returned as the first STX, the payload of every
    partial block followed by the line terminator, the payload of the final
    block and its ETX, closed by a checksum byte computed by [add_bcc] over
    all of that; an ACK is sent for each partial block, and [bcc_valid]
    accepts the returned buffer. *)
Theorem read_multi_block
    {U : Utils} {C : Constants} {T : Type} {TT : Transport T}
    (self : T) (timeout' : option Z) (p : frame) (ps : list frame)
    (q : frame) (n : Z) (rest : list rx_event) (t : list bytes) :
  online self ->
  (forall d, bcc_valid (add_bcc d) = true) ->
  forallb (good_block (timeout self) EOT) (p :: ps) = true ->
  good_block (timeout self) ETX q = true ->
  let msg := add_bcc (STX :: joined (p :: ps) ++ data_of (body q) ++ [ETX]) in
  read self timeout'
    (mkWorld n (stream (p :: ps) ++ frame_events q ++ rest) t)
  = (Ok msg,
     mkWorld (n + stream_span (p :: ps) + frame_span q) rest
       (t ++ repeat (encode ACK) (List.length (p :: ps))))
  /\ bcc_valid msg = true.
Proof.
  intros Hon Hlaw Hps Hq msg. split; [|apply Hlaw].
  unfold read. cbn [rx].
  cbn [forallb] in Hps. apply andb_prop in Hps. destruct Hps as [Hg Hps].
  rewrite stream_cons, <- app_assoc.
  rewrite read_blocks_ack; auto.
  - change (0 + 1 >? 1) with false. cbv iota.
    rewrite read_blocks_rest; auto.
    + subst msg. rewrite joined_cons, stream_span_cons.
      cbn [List.length repeat app]. rewrite <- !app_assoc. cbn [app].
      rewrite !Z.add_assoc. reflexivity.
    + lia.
    + rewrite !length_app, !frame_events_length. lia.
  - left. reflexivity.
  - rewrite length_app, frame_events_length. lia.
Qed.

(** Two partial blocks and a final block on the serial port, with the
    checksum unit of [Collaborators]. *)
Lemma read_multi_block_witness :
  let p := block 4 STX (list_byte_of_string "AB") EOT x05 in
  let q := block 4 STX (list_byte_of_string "CD") ETX x06 in
  let msg :=
    Collaborators.add_bcc
      (STX :: list_byte_of_string "AB" ++ [x0d; x0a]
           ++ list_byte_of_string "AB" ++ [x0d; x0a]
           ++ list_byte_of_string "CD" ++ [ETX]) in
  read example_port None
    (mkWorld 0 (stream [p; p] ++ frame_events q ++ []) [])
  = (Ok msg, mkWorld 12 [] [[x06]; [x06]])
  /\ Collaborators.bcc_valid msg = true.
Proof.
  intros p q msg.
  exact (read_multi_block example_port None p [p] q 0 [] []
           (serial_online _ _ _) add_bcc_valid eq_refl eq_refl).
Defined.

(** C2: the first block of a call arrives with a checksum that is
    rejected and is then retransmitted intact.  [read] sends one NACK and
    takes the retransmission, but the rejected attempt has advanced the
    packet counter, so the retransmitted block is handled as a later block:
    its leading STX is removed and the checksum byte is recomputed.  With a
    checksum unit whose [add_bcc] appends one byte, the message differs from
    the one returned when nothing was corrupted. *)
Theorem read_after_nack_loses_stx
    {U : Utils} {C : Constants} {T : Type} {TT : Transport T}
    (self : T) (timeout' : option Z) (corrupted good : frame) (e : byte)
    (n : Z) (rest : list rx_event) (t : list bytes) :
  online self ->
  (forall d, exists c, add_bcc d = d ++ [c]) ->
  well_framed STX e corrupted = true ->
  py_in [e] end_chars = true ->
  on_time (timeout self) corrupted = true ->
  bcc_valid (frame_bytes corrupted) = false ->
  good_block (timeout self) ETX good = true ->
  let clean := STX :: data_of (body good) ++ [ETX; snd (check good)] in
  let retried := add_bcc (data_of (body good) ++ [ETX]) in
  read self timeout' (mkWorld n (frame_events good ++ rest) t)
  = (Ok clean, mkWorld (n + frame_span good) rest t)
  /\ read self timeout'
       (mkWorld n (frame_events corrupted ++ frame_events good ++ rest) t)
     = (Ok retried,
        mkWorld (n + frame_span corrupted + frame_span good) rest
          (t ++ [encode NACK]))
  /\ retried <> clean.
Proof.
  intros Hon Happ Hwf He Ht Hbad Hgood clean retried.
  destruct (good_block_inv _ _ _ Hgood) as (Hwg & _ & _).
  split; [|split].
  - unfold read. cbn [rx].
    rewrite read_blocks_final; auto.
    + change (0 + 1 >? 1) with false. cbv iota. cbn [app].
      rewrite (frame_bytes_shape _ _ _ Hwg). reflexivity.
    + left. reflexivity.
    + rewrite length_app, frame_events_length. lia.
  - unfold read. cbn [rx].
    rewrite (read_blocks_nack self Hon corrupted e); auto.
    + assert (Hlen : (List.length (frame_events good ++ rest)
                      < List.length (frame_events corrupted
                                     ++ frame_events good ++ rest))%nat)
        by (rewrite !length_app, !frame_events_length; lia).
      destruct (List.length (frame_events corrupted
                             ++ frame_events good ++ rest)) as [|k];
        [lia|].
      rewrite read_blocks_final;
        [reflexivity | exact Hon | right; eexists; reflexivity
        | exact Hgood | ].
      rewrite length_app, frame_events_length in Hlen. lia.
    + left. reflexivity.
    + rewrite length_app, frame_events_length. lia.
  - subst clean retried.
    destruct (Happ (data_of (body good) ++ [ETX])) as [c ->].
    intros Heq. apply (f_equal (@List.length byte)) in Heq.
    cbn [List.length] in Heq. rewrite !length_app in Heq.
    cbn [List.length] in Heq. lia.
Qed.

(** The block STX A ETX, first with payload B under the checksum of A, then
    intact. *)
Lemma read_after_nack_loses_stx_witness :
  read example_port None
    (mkWorld 0 (frame_events (block 0 STX ["A"%byte] ETX "@"%byte) ++ []) [])
  = (Ok [STX; "A"%byte; ETX; "@"%byte], mkWorld 0 [] [])
  /\ read example_port None
       (mkWorld 0
          (frame_events (block 0 STX ["B"%byte] ETX "@"%byte)
           ++ frame_events (block 0 STX ["A"%byte] ETX "@"%byte) ++ [])
          [])
     = (Ok ["A"%byte; ETX; "B"%byte], mkWorld 0 [] [[x15]])
  /\ ["A"%byte; ETX; "B"%byte] <> [STX; "A"%byte; ETX; "@"%byte].
Proof.
  exact (read_after_nack_loses_stx example_port None
           (block 0 STX ["B"%byte] ETX "@"%byte)
           (block 0 STX ["A"%byte] ETX "@"%byte) ETX 0 [] []
           (serial_online _ _ _) add_bcc_appends
           eq_refl eq_refl eq_refl eq_refl eq_refl).
Defined.

(** C3 (as stated) fails: the only block of a single-block message comes
    back with its STX, its ETX and its checksum byte, not as the bare
    payload. *)
Lemma read_single_block_keeps_framing :
  fst (read example_port None
         (mkWorld 0 (at_once [STX; "A"%byte; ETX; "@"%byte]) []))
  = Ok [STX; "A"%byte; ETX; "@"%byte]
  /\ fst (read example_port None
            (mkWorld 0 (at_once [STX; "A"%byte; ETX; "@"%byte]) []))
     <> Ok ["A"%byte].
Proof.
  split.
  - vm_compute. reflexivity.
  - vm_compute. discriminate.
Qed.

(** C3 (amended): a valid single-block message - STX, payload, ETX and a
    checksum byte that [bcc_valid] accepts - is returned verbatim, STX, ETX
    and checksum byte included; nothing is sent and what follows the block
    stays unread. *)
Theorem read_single_block
    {U : Utils} {C : Constants} {T : Type} {TT : Transport T}
    (self : T) (timeout' : option Z) (f : frame) (n : Z)
    (rest : list rx_event) (t : list bytes) :
  online self ->
  good_block (timeout self) ETX f = true ->
  read self timeout' (mkWorld n (frame_events f ++ rest) t)
  = (Ok (STX :: data_of (body f) ++ [ETX; snd (check f)]),
     mkWorld (n + frame_span f) rest t).
Proof.
  intros Hon Hg. unfold read. cbn [rx].
  rewrite read_blocks_final; auto.
  - change (0 + 1 >? 1) with false. cbv iota. cbn [app].
    destruct (good_block_inv _ _ _ Hg) as (Hwf & _ & _).
    rewrite (frame_bytes_shape _ _ _ Hwf). reflexivity.
  - left. reflexivity.
  - rewrite length_app, frame_events_length. lia.
Qed.

(** One final block on the serial port. *)
Lemma read_single_block_witness :
  read example_port None
    (mkWorld 0
       (frame_events (block 3 STX (list_byte_of_string "CD") ETX x06) ++ [])
       [])
  = (Ok (STX :: list_byte_of_string "CD" ++ [ETX; x06]), mkWorld 3 [] []).
Proof.
  exact (read_single_block example_port None
           (block 3 STX (list_byte_of_string "CD") ETX x06) 0 [] []
           (serial_online _ _ _) eq_refl).
Defined.




(** C7 (as stated) fails in two ways.  On a socket whose peer stays
    silent the receive call itself fails once the socket's own timeout is
    over: no start character has arrived, and [read] ends with the
    transport error, not with the timeout error.  And a call that returns
    need not return a complete message: when the read for the checksum
    byte of a command message delivers nothing, the message comes back
    without a checksum byte. *)
Lemma read_silent_socket_and_short_message :
  read example_socket None (mkWorld 0 [Fault 30] [])
  = (Raise TransportError, mkWorld 30 [] [])
  /\ fst (read example_socket None (mkWorld 0 [Fault 30] []))
     <> Raise TimeoutError
  /\ read example_port None
       (mkWorld 0
          (at_once [SOH; "P"%byte; "1"%byte; ETX] ++ [Arrive 0 []]) [])
     = (Ok [SOH; "P"%byte; "1"%byte; ETX], mkWorld 0 [] []).
Proof.
  split; [|split].
  - vm_compute. reflexivity.
  - vm_compute. discriminate.
  - vm_compute. reflexivity.
Qed.

(** C7 (amended): when the calls of [recv] return without a start
    character while the time since the start of [read] is within the
    transport's timeout, and a call then returns after the timeout has
    passed, [read] raises the timeout error; nothing has been written to
    the transport and no data is returned. *)
Theorem read_times_out_awaiting_start
    {U : Utils} {C : Constants} {T : Type} {TT : Transport T}
    (self : T) (timeout' : option Z) (q : list (Z * bytes)) (dt : Z)
    (data : bytes) (n : Z) (rest : list rx_event) (t : list bytes) :
  online self ->
  no_start q = true ->
  in_time (timeout self) 0 (map fst q) = true ->
  timeout self < total (map fst q) + dt ->
  read self timeout' (mkWorld n (chunks q ++ Arrive dt data :: rest) t)
  = (Raise TimeoutError, mkWorld (n + total (map fst q) + dt) rest t).
Proof.
  intros Hon Hq Ht Hlate. unfold read. cbn [rx].
  replace (List.length (chunks q ++ Arrive dt data :: rest))
    with (List.length q + S (List.length rest))%nat
    by (unfold chunks; rewrite length_app, length_map; cbn [List.length];
        lia).
  cbn [read_blocks]. unfold bind at 1, time at 1. cbn [now].
  unfold bind at 1.
  replace (S (List.length q + S (List.length rest)))
    with (List.length q + S (S (List.length rest)))%nat by lia.
  rewrite (read_block_quiet self Hon); auto;
    [|rewrite Z.sub_diag; exact Ht].
  rewrite (read_block_late self Hon); [reflexivity | lia].
Qed.

(** An empty read, a junk byte, and an STX that comes too late. *)
Lemma read_times_out_awaiting_start_witness :
  read example_port None
    (mkWorld 0
       (chunks [(4, []); (4, ["x"%byte])] ++ Arrive 4 [STX] :: at_once [ETX])
       [])
  = (Raise TimeoutError, mkWorld 12 (at_once [ETX]) []).
Proof.
  exact (read_times_out_awaiting_start example_port None
           [(4, []); (4, ["x"%byte])] 4 [STX] 0 (at_once [ETX]) []
           (serial_online _ _ _) eq_refl eq_refl eq_refl).
Defined.

(** C4: start detection is not repeated for the blocks after the first:
    the start flag and the recorded start character are set before the outer
    loop of [read] and never reset.  After a valid partial block, a stray
    byte ahead of the next block is not dropped but becomes the first byte
    of the block buffer.  If the checksum still passes, that byte is what
    the removal of "the leading STX" takes away, and the block's real STX
    stays inside the returned message; if the checksum fails, a NACK goes
    out and the retransmission is what joins the message.  A later block
    that begins with SOH is not recorded as a command message either: its
    checksum is validated and its payload joins the message. *)
Theorem read_later_block_start_not_detected
    {U : Utils} {C : Constants} {T : Type} {TT : Transport T}
    (self : T) (timeout' : option Z) (p q q' r : frame) (dj : Z) (j : byte)
    (n : Z) (rest : list rx_event) (t : list bytes) :
  online self ->
  good_block (timeout self) EOT p = true ->
  py_in [j] end_chars = false ->
  well_framed STX ETX q = true ->
  in_time (timeout self) 0 (dj :: delays (framed q)) = true ->
  good_block (timeout self) ETX q' = true ->
  well_framed SOH ETX r = true ->
  on_time (timeout self) r = true ->
  (bcc_valid (j :: frame_bytes q) = true ->
   read self timeout'
     (mkWorld n (frame_events p ++ Arrive dj [j] :: frame_events q ++ rest)
        t)
   = (Ok (add_bcc (STX :: data_of (body p) ++ encode LINE_END
                   ++ STX :: data_of (body q) ++ [ETX])),
      mkWorld (n + frame_span p + dj + frame_span q) rest
        (t ++ [encode ACK])))
  /\ (bcc_valid (j :: frame_bytes q) = false ->
      read self timeout'
        (mkWorld n
           (frame_events p ++ Arrive dj [j] :: frame_events q
            ++ frame_events q' ++ rest)
           t)
      = (Ok (add_bcc (STX :: data_of (body p) ++ encode LINE_END
                      ++ data_of (body q') ++ [ETX])),
         mkWorld (n + frame_span p + dj + frame_span q + frame_span q')
           rest (t ++ [encode ACK; encode NACK])))
  /\ (bcc_valid (frame_bytes r) = true ->
      read self timeout'
        (mkWorld n (frame_events p ++ frame_events r ++ rest) t)
      = (Ok (add_bcc (STX :: data_of (body p) ++ encode LINE_END
                      ++ data_of (body r) ++ [ETX])),
         mkWorld (n + frame_span p + frame_span r) rest
           (t ++ [encode ACK]))).
Proof.
  intros Hon Hp Hj Hq Ht Hq' Hr Htr.
  assert (Hfirst :
    forall (tail : list rx_event),
      read self timeout' (mkWorld n (frame_events p ++ tail) t)
      = read_blocks (List.length (frame_events p ++ tail)) self
          (STX :: data_of (body p) ++ encode LINE_END) (0 + 1)
          (stx_state [EOT])
          (mkWorld (n + frame_span p) tail (t ++ [encode ACK]))).
  { intros tail. unfold read. cbn [rx].
    rewrite (read_blocks_ack self Hon); auto.
    - left. reflexivity.
    - rewrite length_app, frame_events_length. lia. }
  assert (Hshape :
    forall (d : Z) (x : byte) (f : frame) (tail : list rx_event),
      Arrive d [x] :: frame_events f ++ tail
      = wire (((d, x) :: lead f :: body f) ++ [trail f])
        ++ Arrive (fst (check f)) [snd (check f)] :: tail).
  { intros d x f tail. rewrite frame_events_split. unfold framed, wire.
    rewrite <- app_assoc. cbn [map app]. rewrite !map_app. cbn [map app].
    rewrite <- !app_assoc. reflexivity. }
  destruct (well_framed_inv _ _ _ Hq) as (Hqs & Hqe & Hqfree).
  assert (Hqb := frame_bytes_shape _ _ _ Hq).
  assert (Hfree : free_of end_chars (data_of ((dj, j) :: lead q :: body q))
                  = true).
  { unfold free_of, data_of. cbn [map forallb snd]. rewrite Hj, Hqs.
    change (py_in [STX] end_chars) with false. exact Hqfree. }
  assert (Htime : in_time (timeout self) 0
                    (delays (((dj, j) :: lead q :: body q) ++ [trail q]))
                  = true) by exact Ht.
  assert (Hdata : data_of ((dj, j) :: lead q :: body q)
                  ++ [ETX; snd (check q)] = j :: frame_bytes q).
  { rewrite Hqb. unfold data_of. cbn [map app]. rewrite Hqs. reflexivity. }
  assert (Hspan : forall m,
             m + total (delays (((dj, j) :: lead q :: body q) ++ [trail q]))
             + fst (check q) = m + dj + frame_span q).
  { intros m. rewrite frame_span_split. unfold framed.
    change (delays (((dj, j) :: lead q :: body q) ++ [trail q]))
      with (dj :: delays (lead q :: body q ++ [trail q])).
    change (total (dj :: delays (lead q :: body q ++ [trail q])))
      with (dj + total (delays (lead q :: body q ++ [trail q]))).
    lia. }
  assert (Htrail : trail q = (fst (trail q), ETX))
    by (rewrite <- Hqe; destruct (trail q); reflexivity).
  split; [|split].
  - intros Hv. rewrite Hfirst, Hshape.
    rewrite Htrail in *.
    match goal with
    | |- read_blocks ?f _ _ _ _ _ = _ => remember f as F eqn:HF
    end.
    unfold wire in HF.
    rewrite !length_app, frame_events_length, length_map, length_app in HF.
    cbn [List.length] in HF.
    rewrite ?length_app, ?frame_events_length in HF.
    destruct F as [|F]; [lia|].
    rewrite (read_blocks_later self Hon); auto; [|cbn [List.length]; lia].
    rewrite Hdata, Hv. cbn [negb]. change (0 + 1 + 1 >? 1) with true.
    cbv iota. unfold ret. rewrite Hqb. cbn [drop_first skipn].
    change (STX :: data_of (body q) ++ [ETX; snd (check q)])
      with ((STX :: data_of (body q)) ++ [ETX; snd (check q)]).
    rewrite removelast_joined, Hspan. cbn [app].
    rewrite <- !app_assoc. reflexivity.
  - intros Hv. rewrite Hfirst.
    change (Arrive dj [j] :: frame_events q ++ frame_events q' ++ rest)
      with (Arrive dj [j] :: frame_events q ++ (frame_events q' ++ rest)).
    rewrite Hshape. rewrite Htrail in *.
    match goal with
    | |- read_blocks ?f _ _ _ _ _ = _ => remember f as F eqn:HF
    end.
    unfold wire in HF.
    rewrite !length_app, !frame_events_length, length_map, length_app in HF.
    cbn [List.length] in HF.
    rewrite ?length_app, ?frame_events_length in HF.
    destruct F as [|F]; [lia|].
    rewrite (read_blocks_later self Hon); auto; [|cbn [List.length]; lia].
    rewrite Hdata, Hv. cbn [negb]. unfold bind.
    rewrite (send_written self Hon). rewrite Hspan.
    destruct F as [|F]; [lia|].
    rewrite (read_blocks_final self Hon); auto.
    + replace (0 + 1 + 1 + 1 >? 1) with true by reflexivity.
      cbv iota. cbn [app]. rewrite <- !app_assoc. cbn [app]. reflexivity.
    + right. eexists. reflexivity.
    + lia.
  - intros Hv. rewrite Hfirst.
    destruct (well_framed_inv _ _ _ Hr) as (Hrs & Hre & Hrfree).
    assert (Hrb := frame_bytes_shape _ _ _ Hr).
    assert (Hrt : trail r = (fst (trail r), ETX))
      by (rewrite <- Hre; destruct (trail r); reflexivity).
    rewrite (frame_events_split r), <- app_assoc. cbn [app].
    rewrite (frame_span_split r).
    unfold on_time in Htr. unfold framed in *. rewrite Hrt in *.
    change (lead r :: body r ++ [(fst (trail r), ETX)])
      with ((lead r :: body r) ++ [(fst (trail r), ETX)]) in *.
    match goal with
    | |- read_blocks ?f _ _ _ _ _ = _ => remember f as F eqn:HF
    end.
    unfold wire in HF.
    rewrite !length_app, frame_events_length, length_map, length_app in HF.
    cbn [List.length] in HF.
    rewrite ?length_app, ?frame_events_length in HF.
    destruct F as [|F]; [lia|].
    rewrite (read_blocks_later self Hon); auto.
    + assert (Hd : data_of (lead r :: body r) ++ [ETX; snd (check r)]
                   = frame_bytes r).
      { rewrite Hrb. unfold data_of. cbn [map app]. rewrite Hrs.
        reflexivity. }
      rewrite Hd, Hv. cbn [negb]. change (0 + 1 + 1 >? 1) with true.
      cbv iota. unfold ret. rewrite Hrb. cbn [drop_first skipn].
      rewrite removelast_joined, !Z.add_assoc. cbn [app].
      rewrite <- !app_assoc. reflexivity.
    + unfold free_of, data_of. cbn [map forallb snd]. rewrite Hrs.
      change (py_in [SOH] end_chars) with false. exact Hrfree.
    + cbn [List.length]. lia.
Qed.

(** A NUL, a letter, and an SOH at the head of the second block. *)
Lemma read_later_block_start_not_detected_witness :
  let p := block 1 STX (list_byte_of_string "AB") EOT x05 in
  let q := block 1 STX (list_byte_of_string "CD") ETX x06 in
  let r := block 1 SOH (list_byte_of_string "P1") ETX "c"%byte in
  read example_port None
    (mkWorld 0 (frame_events p ++ Arrive 1 [x00] :: frame_events q ++ []) [])
  = (Ok (Collaborators.add_bcc
           (STX :: list_byte_of_string "AB" ++ [x0d; x0a]
                ++ STX :: list_byte_of_string "CD" ++ [ETX])),
     mkWorld 3 [] [[x06]])
  /\ read example_port None
       (mkWorld 0
          (frame_events p ++ Arrive 1 ["J"%byte] :: frame_events q
           ++ frame_events q ++ [])
          [])
     = (Ok (Collaborators.add_bcc
              (STX :: list_byte_of_string "AB" ++ [x0d; x0a]
                   ++ list_byte_of_string "CD" ++ [ETX])),
        mkWorld 4 [] [[x06]; [x15]])
  /\ read example_port None
       (mkWorld 0 (frame_events p ++ frame_events r ++ []) [])
     = (Ok (Collaborators.add_bcc
              (STX :: list_byte_of_string "AB" ++ [x0d; x0a]
                   ++ list_byte_of_string "P1" ++ [ETX])),
        mkWorld 2 [] [[x06]]).
Proof.
  intros p q r.
  destruct (read_later_block_start_not_detected (U := concrete_utils)
              example_port None p q q r 1 x00 0 [] []
              (serial_online _ _ _) eq_refl eq_refl eq_refl eq_refl eq_refl
              eq_refl eq_refl) as (Hnul & _ & Hsoh).
  destruct (read_later_block_start_not_detected (U := concrete_utils)
              example_port None p q q r 1 "J"%byte 0 [] []
              (serial_online _ _ _) eq_refl eq_refl eq_refl eq_refl eq_refl
              eq_refl eq_refl) as (_ & Hjunk & _).
  split; [|split].
  - apply Hnul. reflexivity.
  - apply Hjunk. reflexivity.
  - apply Hsoh. reflexivity.
Defined.

(** C5: the override passed to [read] or [simple_read] is not what the
    elapsed time is compared against: both calls behave as if no override
    had been given.  With a transport configured for a timeout of 10, a byte
    that takes 20 is within an override of 60, and both calls raise the
    timeout error all the same. *)
Theorem read_timeout_override_ignored :
  (forall {U : Utils} {C : Constants} {T : Type} {TT : Transport T}
          (self : T) (override : option Z) (sc ec : str_or_bytes)
          (w : World),
      read self override w = read self None w
      /\ simple_read self sc ec override w = simple_read self sc ec None w)
  /\ timeout example_port = 10
  /\ read example_port (Some 60)
       (mkWorld 0 (Arrive 20 [STX] :: at_once ["A"%byte; ETX; "@"%byte]) [])
     = (Raise TimeoutError,
        mkWorld 20 (at_once ["A"%byte; ETX; "@"%byte]) [])
  /\ simple_read example_port (Str "/") (Str "!") (Some 60)
       (mkWorld 0 (Arrive 20 ["/"%byte] :: at_once ["!"%byte]) [])
     = (Raise TimeoutError, mkWorld 20 (at_once ["!"%byte]) []).
Proof.
  split; [|split; [|split]].
  - intros. split; reflexivity.
  - reflexivity.
  - vm_compute. reflexivity.
  - vm_compute. reflexivity.
Qed.

(** C8: on a closed serial port [send], [recv], [disconnect] and
    [switch_baudrate] raise the transport error; on a closed socket [send],
    [recv] and [disconnect] raise it; [switch_baudrate] of the TCP transport
    returns normally whether or not there is a socket, with the transport
    object and the world (nothing received, nothing written) as they
    were. *)
Theorem closed_resource_raises
    (name : string) (addr : string * Z) (tmo baud : Z) (data : bytes)
    (chars : nat) (sock : option TcpTransport.Socket) (w : World) :
  let serial := closed_serial name tmo in
  let tcp := closed_tcp addr tmo in
  let any_tcp :=
    {| TcpTransport.address := addr; TcpTransport.timeout := tmo;
       TcpTransport.socket := sock |} in
  send serial data w = (Raise TransportError, w)
  /\ recv serial chars w = (Raise TransportError, w)
  /\ disconnect serial w = (Raise TransportError, w)
  /\ switch_baudrate serial baud w = (Raise TransportError, w)
  /\ send tcp data w = (Raise TransportError, w)
  /\ recv tcp chars w = (Raise TransportError, w)
  /\ disconnect tcp w = (Raise TransportError, w)
  /\ switch_baudrate any_tcp baud w = (Ok any_tcp, w).
Proof.
  cbv zeta. repeat split; reflexivity.
Qed.

(** C9: [simple_read] with start character [/] and end character [!] on the
    incoming bytes [junk/hello!more], whatever their arrival times within the
    timeout: the result is [/hello!], and [more] is left unread. *)
Theorem simple_read_junk_hello_more
    {U : Utils} {C : Constants} {T : Type} {TT : Transport T}
    (self : T) (timeout' : option Z) (ds : list Z) (n : Z) (t : list bytes) :
  online self ->
  ensure_bytes (Str "/") = ["/"%byte] ->
  ensure_bytes (Str "!") = ["!"%byte] ->
  List.length ds = 15%nat ->
  in_time (timeout self) 0 (firstn 11 ds) = true ->
  simple_read self (Str "/") (Str "!") timeout'
    (mkWorld n (wire (combine ds (list_byte_of_string "junk/hello!more"))) t)
  = (Ok (list_byte_of_string "/hello!"),
     mkWorld (n + total (firstn 11 ds))
       (wire (combine (skipn 11 ds) (list_byte_of_string "more"))) t).
Proof.
  intros Hon Hsc Hec Hlen Ht.
  do 15 (destruct ds as [|? ds]; [discriminate Hlen|]).
  destruct ds; [|discriminate Hlen].
  exact (simple_read_delimited self Hon (Str "/") (Str "!") timeout'
           [(z, "j"%byte); (z0, "u"%byte); (z1, "n"%byte); (z2, "k"%byte)]
           [(z4, "h"%byte); (z5, "e"%byte); (z6, "l"%byte); (z7, "l"%byte);
            (z8, "o"%byte)]
           z3 z9 "/"%byte "!"%byte n
           (wire [(z10, "m"%byte); (z11, "o"%byte); (z12, "r"%byte);
                  (z13, "e"%byte)])
           t Hsc Hec eq_refl eq_refl Ht).
Qed.

(** Ten ticks for [junk/hello!] on a socket with a timeout of ten. *)
Lemma simple_read_junk_hello_more_witness :
  simple_read example_socket (Str "/") (Str "!") None
    (mkWorld 0
       (wire (combine [1; 1; 1; 1; 1; 1; 1; 1; 1; 1; 0; 7; 7; 7; 7]
                (list_byte_of_string "junk/hello!more")))
       [])
  = (Ok (list_byte_of_string "/hello!"),
     mkWorld 10
       (wire (combine [7; 7; 7; 7] (list_byte_of_string "more"))) []).
Proof.
  exact (simple_read_junk_hello_more example_socket None
           [1; 1; 1; 1; 1; 1; 1; 1; 1; 1; 0; 7; 7; 7; 7] 0 []
           (tcp_online _ _) eq_refl eq_refl eq_refl eq_refl).
Defined.

(** C10: the clock that [read] compares with the timeout is started anew
    for every block it takes in, also after a NACK.  If every block of a
    sequence - partial blocks, accepted or rejected, and rejected final
    blocks - arrives within the timeout counted from the block's own start,
    and a valid final block follows in the same way, [read] returns a
    message without a timeout error, although the call lasts as long as all
    the blocks together. *)
Theorem read_timeout_per_block
    {U : Utils} {C : Constants} {T : Type} {TT : Transport T}
    (self : T) (timeout' : option Z) (rs : list frame) (q : frame) (n : Z)
    (rest : list rx_event) (t : list bytes) :
  online self ->
  forallb (passing_block (timeout self)) rs = true ->
  good_block (timeout self) ETX q = true ->
  exists msg,
    read self timeout' (mkWorld n (stream rs ++ frame_events q ++ rest) t)
    = (Ok msg,
       mkWorld (n + stream_span rs + frame_span q) rest (t ++ replies rs)).
Proof.
  intros Hon Hrs Hq. unfold read. cbn [rx].
  apply read_blocks_rounds; auto.
  left. reflexivity.
Qed.

(** A rejected block, its retransmission and the final block take ten
    ticks each under a timeout of ten: thirty ticks in all. *)
Lemma read_timeout_per_block_witness :
  timeout example_port = 10
  /\ exists msg,
       read example_port None
         (mkWorld 0
            (stream [block 10 STX (list_byte_of_string "AB") EOT "E"%byte;
                     block 10 STX (list_byte_of_string "AB") EOT x05]
             ++ frame_events (block 10 STX (list_byte_of_string "CD") ETX x06)
             ++ [])
            [])
       = (Ok msg, mkWorld 30 [] [[x15]; [x06]]).
Proof.
  split; [reflexivity|].
  exact (read_timeout_per_block example_port None
           [block 10 STX (list_byte_of_string "AB") EOT "E"%byte;
            block 10 STX (list_byte_of_string "AB") EOT x05]
           (block 10 STX (list_byte_of_string "CD") ETX x06) 0 [] []
           (serial_online _ _ _) eq_refl eq_refl).
Defined.

(** ** Further properties of the transports *)

Section Further.

Context {U : Utils} {C : Constants} {T : Type} {TT : Transport T}.
Variable self : T.
Hypothesis Hon : online self.

(** A call that returns after the deadline ends [simple_read] with a
    timeout error. *)
Lemma simple_read_late (fuel : nat) (sc ec : bytes) (start : Z)
    (in_data : bytes) (seen : bool) (n dt : Z) (data : bytes)
    (rest : list rx_event) (t : list bytes) :
  timeout self < n + dt - start ->
  simple_read_loop (S fuel) self sc ec start in_data seen
    (mkWorld n (Arrive dt data :: rest) t)
  = (Raise TimeoutError, mkWorld (n + dt) rest t).
Proof.
  intros Hlate. rewrite (simple_read_step self Hon). cbv zeta.
  replace (n + dt - start >? timeout self) with true; [reflexivity|].
  symmetry. apply Z.gtb_lt. lia.
Qed.

(** The inner loop of [read] on calls that return at most one byte each,
    none of it an end character, after the start character. *)
Lemma read_block_chunks (s : list (Z * bytes)) :
  forall (k : nat) (start : Z) (in_data : bytes) (st : block_state)
         (n : Z) (rest : list rx_event) (t : list bytes),
    start_char_received st = true ->
    no_end s = true ->
    in_time (timeout self) (n - start) (map fst s) = true ->
    read_block (List.length s + k) self start in_data st
      (mkWorld n (chunks s ++ rest) t)
    = read_block k self start (in_data ++ flat s) st
        (mkWorld (n + total (map fst s)) rest t).
Proof.
  induction s as [|[dt data] s IH]; intros k start in_data st n rest t Hst Hs Ht.
  - cbn. rewrite Z.add_0_r, app_nil_r. reflexivity.
  - change (negb (py_in (firstn 1 data) end_chars) && no_end s = true) in Hs.
    change ((n - start + dt <=? timeout self)
            && in_time (timeout self) (n - start + dt) (map fst s) = true)
      in Ht.
    apply andb_prop in Hs. destruct Hs as [Hb Hs].
    apply andb_prop in Ht. destruct Ht as [Hdt Ht].
    apply negb_true_iff in Hb. apply Z.leb_le in Hdt.
    change (chunks ((dt, data) :: s) ++ rest)
      with (Arrive dt data :: chunks s ++ rest).
    change (List.length ((dt, data) :: s) + k)%nat
      with (S (List.length s + k)).
    rewrite (read_block_step self Hon). cbv zeta.
    rewrite gtb_within by lia.
    rewrite Hst. cbn [negb]. rewrite Hb.
    rewrite IH; auto.
    + change (total (map fst ((dt, data) :: s)))
        with (dt + total (map fst s)).
      change (flat ((dt, data) :: s)) with (firstn 1 data ++ flat s).
      rewrite Z.add_assoc, app_assoc. reflexivity.
    + replace (n + dt - start) with (n - start + dt) by lia. exact Ht.
Qed.

Lemma awaiting_stx (e0 : bytes) : awaiting (stx_state e0).
Proof. right. exists e0. reflexivity. Qed.

Lemma awaiting_after (st : block_state) (rs : list frame) :
  awaiting st -> awaiting (state_after st rs).
Proof.
  revert st. induction rs as [|r rs IH]; intros st Hst; [exact Hst|].
  cbn [state_after]. apply IH. apply awaiting_stx.
Qed.

(** Blocks that do not end the read, one after the other: each is answered,
    the accepted ones join the message, and the outer loop goes on with what
    follows them. *)
Lemma read_blocks_passing (rest : list rx_event) (rs : list frame) :
  forall (k : nat) (total_data : bytes) (packets : Z) (st : block_state)
         (n : Z) (t : list bytes),
    awaiting st ->
    forallb (passing_block (timeout self)) rs = true ->
    (List.length (stream rs ++ rest) < k)%nat ->
    read_blocks k self total_data packets st
      (mkWorld n (stream rs ++ rest) t)
    = read_blocks (k - List.length rs) self
        (total_data ++ gathered packets rs)
        (packets + Z.of_nat (List.length rs)) (state_after st rs)
        (mkWorld (n + stream_span rs) rest (t ++ replies rs)).
Proof.
  induction rs as [|r rs IH]; intros k total_data packets st n t Hst Hrs Hk.
  - cbn [stream map List.concat app List.length gathered state_after replies].
    unfold stream_span. cbn [map total fold_right Z.of_nat].
    rewrite Nat.sub_0_r, !Z.add_0_r, !app_nil_r. reflexivity.
  - cbn [forallb] in Hrs. apply andb_prop in Hrs. destruct Hrs as [Hr Hrs].
    rewrite stream_cons, <- app_assoc in *.
    rewrite length_app, frame_events_length in Hk.
    destruct k as [|k]; [lia|].
    unfold passing_block in Hr. apply andb_prop in Hr.
    destruct Hr as [Ht Hr].
    cbn [List.length state_after gathered]. rewrite stream_span_cons.
    unfold replies. cbn [map]. fold (replies rs).
    change (S k - S (List.length rs))%nat with (k - List.length rs)%nat.
    replace (packets + Z.of_nat (S (List.length rs)))
      with (packets + 1 + Z.of_nat (List.length rs)) by lia.
    unfold gain.
    destruct (bcc_valid (frame_bytes r)) eqn:Hv.
    + rewrite andb_false_r, orb_false_r in Hr.
      destruct (well_framed_inv _ _ _ Hr) as (_ & Htr & _).
      rewrite (read_blocks_ack self Hon); auto; [| |lia].
      * rewrite IH; auto; [|apply awaiting_stx|lia].
        rewrite Htr, <- !app_assoc, !Z.add_assoc. reflexivity.
      * unfold good_block. rewrite Hr, Ht, Hv. reflexivity.
    + rewrite andb_true_r in Hr. apply orb_prop in Hr.
      destruct Hr as [Hr | Hr];
        destruct (well_framed_inv _ _ _ Hr) as (_ & Htr & _).
      * rewrite (read_blocks_nack self Hon r EOT); auto; [|lia].
        rewrite IH; auto; [|apply awaiting_stx|lia].
        rewrite Htr, <- !app_assoc, !Z.add_assoc. reflexivity.
      * rewrite (read_blocks_nack self Hon r ETX); auto; [|lia].
        rewrite IH; auto; [|apply awaiting_stx|lia].
        rewrite Htr, <- !app_assoc, !Z.add_assoc. reflexivity.
Qed.

(** Once the packet counter is past zero, blocks add their payloads
    without the STX. *)
Lemma gathered_later (rs : list frame) :
  forall packets, 1 <= packets -> gathered packets rs = joined (accepted rs).
Proof.
  induction rs as [|r rs IH]; intros packets Hp; [reflexivity|].
  cbn [gathered]. rewrite IH by lia. unfold gain, accepted. cbn [filter].
  replace (packets + 1 >? 1) with true by (symmetry; apply Z.gtb_lt; lia).
  destruct (bcc_valid (frame_bytes r)); reflexivity.
Qed.

Lemma stream_length (rs : list frame) :
  (List.length rs <= List.length (stream rs))%nat.
Proof.
  induction rs as [|r rs IH]; [apply Nat.le_refl|].
  rewrite stream_cons, length_app, frame_events_length. cbn [List.length].
  lia.
Qed.

(** The inner loop on a block that is cut short by a call that returns
    after the deadline. *)
Lemma read_block_unfinished (part : timed) (k : nat) (st : block_state)
    (n dt : Z) (data : bytes) (rest : list rx_event) (t : list bytes) :
  awaiting st ->
  stx_led part = true ->
  free_of end_chars (data_of part) = true ->
  in_time (timeout self) 0 (delays part) = true ->
  timeout self < total (delays part) + dt ->
  (List.length part < k)%nat ->
  read_block k self n [] st
    (mkWorld n (wire part ++ Arrive dt data :: rest) t)
  = (Raise TimeoutError,
     mkWorld (n + total (delays part) + dt) rest t).
Proof.
  intros Hst Hled Hfree Ht Hlate Hk.
  assert (Hk' : exists k', k = (List.length part + S k')%nat)
    by (exists (k - List.length part - 1)%nat; lia).
  destruct Hk' as [k' ->].
  assert (Hgo : forall st1 d1, start_char_received st1 = true ->
            read_block (List.length part + S k') self n d1 st1
              (mkWorld n (wire part ++ Arrive dt data :: rest) t)
            = (Raise TimeoutError,
               mkWorld (n + total (delays part) + dt) rest t)).
  { intros st1 d1 Hr.
    rewrite (read_block_body self Hon); auto;
      [|rewrite Z.sub_diag; exact Ht].
    apply (read_block_late self Hon). lia. }
  destruct Hst as [-> | [e0 ->]]; [|apply Hgo; reflexivity].
  destruct part as [|[d s] text].
  - cbn [wire map app List.length Nat.add delays total fold_right] in *.
    rewrite Z.add_0_r. apply (read_block_late self Hon). lia.
  - cbn [stx_led snd] in Hled. apply Byte.byte_dec_bl in Hled. subst s.
    change (free_of end_chars (data_of text) = true) in Hfree.
    change ((0 + d <=? timeout self)
            && in_time (timeout self) (0 + d) (delays text) = true) in Ht.
    apply andb_prop in Ht. destruct Ht as [Hd Ht]. apply Z.leb_le in Hd.
    change (total (delays ((d, STX) :: text)))
      with (d + total (delays text)) in *.
    change (wire ((d, STX) :: text) ++ Arrive dt data :: rest)
      with (Arrive d [STX] :: wire text ++ Arrive dt data :: rest).
    change (List.length ((d, STX) :: text) + S k')%nat
      with (S (List.length text + S k')).
    rewrite (read_block_start self Hon); auto; [|lia].
    rewrite (read_block_body self Hon); auto.
    + rewrite (read_block_late self Hon) by lia.
      rewrite !Z.add_assoc. reflexivity.
    + replace (n + d - n) with (0 + d) by lia. exact Ht.
Qed.

(** Calls whose data is not the delimiter waited for pass: dropped before
    the start delimiter, kept (one byte per call) after it. *)
Lemma simple_read_pass_chunks (sc ec : bytes) (seen : bool)
    (s : list (Z * bytes)) :
  forall (k : nat) (start : Z) (in_data : bytes) (n : Z)
         (rest : list rx_event) (t : list bytes),
    free_chunks (if seen then ec else sc) s = true ->
    in_time (timeout self) (n - start) (map fst s) = true ->
    simple_read_loop (List.length s + k) self sc ec start in_data seen
      (mkWorld n (chunks s ++ rest) t)
    = simple_read_loop k self sc ec start
        (if seen then in_data ++ flat s else in_data) seen
        (mkWorld (n + total (map fst s)) rest t).
Proof.
  induction s as [|[dt data] s IH]; intros k start in_data n rest t Hs Ht.
  - cbn. rewrite Z.add_0_r, app_nil_r. destruct seen; reflexivity.
  - change (negb (bytes_eqb (firstn 1 data) (if seen then ec else sc))
            && free_chunks (if seen then ec else sc) s = true) in Hs.
    change ((n - start + dt <=? timeout self)
            && in_time (timeout self) (n - start + dt) (map fst s) = true)
      in Ht.
    apply andb_prop in Hs. destruct Hs as [Hb Hs].
    apply andb_prop in Ht. destruct Ht as [Hdt Ht].
    apply negb_true_iff in Hb. apply Z.leb_le in Hdt.
    change (chunks ((dt, data) :: s) ++ rest)
      with (Arrive dt data :: chunks s ++ rest).
    change (List.length ((dt, data) :: s) + k)%nat
      with (S (List.length s + k)).
    rewrite (simple_read_step self Hon). cbv zeta.
    rewrite gtb_within by lia.
    change (total (map fst ((dt, data) :: s))) with (dt + total (map fst s)).
    change (flat ((dt, data) :: s)) with (firstn 1 data ++ flat s).
    destruct seen; cbn [negb]; rewrite Hb; rewrite IH; auto.
    + rewrite Z.add_assoc, app_assoc. reflexivity.
    + replace (n + dt - start) with (n - start + dt) by lia. exact Ht.
    + rewrite Z.add_assoc. reflexivity.
    + replace (n + dt - start) with (n - start + dt) by lia. exact Ht.
Qed.

(** The inner loop of [read] when the resource fails: the exception of
    [_recv] ends the loop before the elapsed time is looked at. *)
Lemma read_block_fault (e : exn) (k : nat) (start : Z) (in_data : bytes)
    (st : block_state) (n dt : Z) (rest : list rx_event) (t : list bytes) :
  faults_as e self ->
  read_block (S k) self start in_data st (mkWorld n (Fault dt :: rest) t)
  = (Raise e, mkWorld (n + dt) rest t).
Proof.
  intros Hf. cbn [read_block]. unfold bind at 1, recv. rewrite Hf.
  reflexivity.
Qed.

Lemma read_block_interrupted (e : exn) (part : timed) (k : nat)
    (st : block_state) (n dt : Z) (rest : list rx_event) (t : list bytes) :
  faults_as e self ->
  awaiting st ->
  stx_led part = true ->
  free_of end_chars (data_of part) = true ->
  in_time (timeout self) 0 (delays part) = true ->
  (List.length part < k)%nat ->
  read_block k self n [] st (mkWorld n (wire part ++ Fault dt :: rest) t)
  = (Raise e, mkWorld (n + total (delays part) + dt) rest t).
Proof.
  intros Hf Hst Hled Hfree Ht Hk.
  assert (Hk' : exists k', k = (List.length part + S k')%nat)
    by (exists (k - List.length part - 1)%nat; lia).
  destruct Hk' as [k' ->].
  assert (Hgo : forall st1 d1, start_char_received st1 = true ->
            read_block (List.length part + S k') self n d1 st1
              (mkWorld n (wire part ++ Fault dt :: rest) t)
            = (Raise e, mkWorld (n + total (delays part) + dt) rest t)).
  { intros st1 d1 Hr.
    rewrite (read_block_body self Hon); auto;
      [|rewrite Z.sub_diag; exact Ht].
    apply read_block_fault. exact Hf. }
  destruct Hst as [-> | [e0 ->]]; [|apply Hgo; reflexivity].
  destruct part as [|[d s] text].
  - cbn [wire map app List.length Nat.add delays total fold_right].
    rewrite Z.add_0_r. apply read_block_fault. exact Hf.
  - cbn [stx_led snd] in Hled. apply Byte.byte_dec_bl in Hled. subst s.
    change (free_of end_chars (data_of text) = true) in Hfree.
    change ((0 + d <=? timeout self)
            && in_time (timeout self) (0 + d) (delays text) = true) in Ht.
    apply andb_prop in Ht. destruct Ht as [Hd Ht]. apply Z.leb_le in Hd.
    change (total (delays ((d, STX) :: text)))
      with (d + total (delays text)).
    change (wire ((d, STX) :: text) ++ Fault dt :: rest)
      with (Arrive d [STX] :: wire text ++ Fault dt :: rest).
    change (List.length ((d, STX) :: text) + S k')%nat
      with (S (List.length text + S k')).
    rewrite (read_block_start self Hon); auto; [|lia].
    rewrite (read_block_body self Hon); auto.
    + rewrite (read_block_fault e) by exact Hf.
      rewrite !Z.add_assoc. reflexivity.
    + replace (n + d - n) with (0 + d) by lia. exact Ht.
Qed.

(** [read] when the resource fails after some blocks and part of another:
    the exception of [_recv] is what the caller gets. *)
Lemma read_interrupted (e : exn) (timeout' : option Z) (rs : list frame)
    (part : timed) (dt : Z) (n : Z) (rest : list rx_event)
    (t : list bytes) :
  faults_as e self ->
  forallb (passing_block (timeout self)) rs = true ->
  stx_led part = true ->
  free_of end_chars (data_of part) = true ->
  in_time (timeout self) 0 (delays part) = true ->
  read self timeout'
    (mkWorld n (stream rs ++ wire part ++ Fault dt :: rest) t)
  = (Raise e,
     mkWorld (n + stream_span rs + total (delays part) + dt) rest
       (t ++ replies rs)).
Proof.
  intros Hf Hrs Hled Hfree Ht. unfold read. cbn [rx].
  rewrite read_blocks_passing; [|left; reflexivity|exact Hrs|lia].
  pose proof (stream_length rs) as Hlen.
  rewrite length_app in *. rewrite length_app. cbn [List.length].
  replace (S (List.length (stream rs)
              + (List.length (wire part) + S (List.length rest)))
           - List.length rs)%nat
    with (S (List.length (stream rs) - List.length rs
             + (List.length (wire part) + S (List.length rest))))%nat
    by lia.
  cbn [read_blocks]. unfold bind at 1, time at 1. cbn [now].
  unfold bind at 1.
  rewrite (read_block_interrupted e); auto.
  - apply awaiting_after. left. reflexivity.
  - unfold wire. rewrite length_map. lia.
Qed.

End Further.

(** X4: blocks that do not end the read have been taken in and answered,
    and what follows - nothing yet, or an STX and part of a block - is cut
    short by a call that returns after the timeout, counted from the start
    of that block.  [read] raises the timeout error; the replies to the
    earlier blocks have been sent, and the message gathered so far is not
    returned. *)
Theorem read_times_out_mid_message
    {U : Utils} {C : Constants} {T : Type} {TT : Transport T}
    (self : T) (timeout' : option Z) (rs : list frame) (part : timed)
    (dt : Z) (data : bytes) (n : Z) (rest : list rx_event)
    (t : list bytes) :
  online self ->
  forallb (passing_block (timeout self)) rs = true ->
  stx_led part = true ->
  free_of end_chars (data_of part) = true ->
  in_time (timeout self) 0 (delays part) = true ->
  timeout self < total (delays part) + dt ->
  read self timeout'
    (mkWorld n (stream rs ++ wire part ++ Arrive dt data :: rest) t)
  = (Raise TimeoutError,
     mkWorld (n + stream_span rs + total (delays part) + dt) rest
       (t ++ replies rs)).
Proof.
  intros Hon Hrs Hled Hfree Ht Hlate. unfold read. cbn [rx].
  rewrite (read_blocks_passing self Hon);
    [|left; reflexivity|exact Hrs|lia].
  pose proof (stream_length rs) as Hlen.
  rewrite length_app in *. rewrite length_app. cbn [List.length].
  replace (S (List.length (stream rs)
              + (List.length (wire part) + S (List.length rest)))
           - List.length rs)%nat
    with (S (List.length (stream rs) - List.length rs
             + (List.length (wire part) + S (List.length rest))))%nat
    by lia.
  cbn [read_blocks]. unfold bind at 1, time at 1. cbn [now].
  unfold bind at 1.
  rewrite (read_block_unfinished self Hon); auto.
  - apply awaiting_after. left. reflexivity.
  - unfold wire. rewrite length_map. lia.
Qed.

(** A rejected block, an accepted partial block, then an STX and one more
    byte before the line goes quiet for longer than the timeout. *)
Lemma read_times_out_mid_message_witness :
  read example_port None
    (mkWorld 0
       (stream [block 6 STX (list_byte_of_string "AB") EOT "E"%byte;
                block 6 STX (list_byte_of_string "AB") EOT x05]
        ++ wire [(2, STX); (2, "C"%byte)] ++ Arrive 7 [] :: [])
       [])
  = (Raise TimeoutError, mkWorld 23 [] [[x15]; [x06]]).
Proof.
  exact (read_times_out_mid_message example_port None
           [block 6 STX (list_byte_of_string "AB") EOT "E"%byte;
            block 6 STX (list_byte_of_string "AB") EOT x05]
           [(2, STX); (2, "C"%byte)] 7 [] 0 [] []
           (serial_online _ _ _) eq_refl eq_refl eq_refl eq_refl eq_refl).
Defined.

(** X8: the message [read] returns when blocks are retransmitted.  After
    any sequence of blocks that do not end the read (at least one), a valid
    final block yields [add_bcc] over the payloads of the accepted blocks,
    each followed by the line terminator, the final payload and ETX.  The
    STX stands in front only if the very first block received was
    accepted; a rejected block anywhere else costs a NACK and nothing
    more. *)
Theorem read_message_with_retries
    {U : Utils} {C : Constants} {T : Type} {TT : Transport T}
    (self : T) (timeout' : option Z) (r : frame) (rs : list frame)
    (q : frame) (n : Z) (rest : list rx_event) (t : list bytes) :
  online self ->
  forallb (passing_block (timeout self)) (r :: rs) = true ->
  good_block (timeout self) ETX q = true ->
  read self timeout'
    (mkWorld n (stream (r :: rs) ++ frame_events q ++ rest) t)
  = (Ok (add_bcc
           ((if bcc_valid (frame_bytes r)
             then STX :: data_of (body r) ++ encode LINE_END else [])
            ++ joined (accepted rs) ++ data_of (body q) ++ [ETX])),
     mkWorld (n + stream_span (r :: rs) + frame_span q) rest
       (t ++ replies (r :: rs))).
Proof.
  intros Hon Hrs Hq. unfold read. cbn [rx].
  rewrite (read_blocks_passing self Hon);
    [|left; reflexivity|exact Hrs|lia].
  pose proof (stream_length (r :: rs)) as Hlen.
  rewrite length_app in *. rewrite length_app, frame_events_length.
  replace (S (List.length (stream (r :: rs))
              + (S (List.length (framed q)) + List.length rest))
           - List.length (r :: rs))%nat
    with (S (List.length (stream (r :: rs)) - List.length (r :: rs)
             + (S (List.length (framed q)) + List.length rest)))%nat
    by lia.
  rewrite (read_blocks_final self Hon); auto.
  - replace (0 + Z.of_nat (List.length (r :: rs)) + 1 >? 1) with true
      by (symmetry; apply Z.gtb_lt; cbn [List.length]; lia).
    cbn [gathered]. rewrite gathered_later by lia.
    unfold gain. change (0 + 1 >? 1) with false. cbv iota.
    destruct (bcc_valid (frame_bytes r)); cbn [app];
      rewrite <- ?app_assoc; reflexivity.
  - apply awaiting_after. left. reflexivity.
  - lia.
Qed.

(** A rejected first block, its retransmission, a rejected second block,
    its retransmission, and the final block. *)
Lemma read_message_with_retries_witness :
  read example_port None
    (mkWorld 0
       (stream [block 1 STX (list_byte_of_string "AB") EOT "E"%byte;
                block 1 STX (list_byte_of_string "AB") EOT x05;
                block 1 STX (list_byte_of_string "XY") EOT "?"%byte;
                block 1 STX (list_byte_of_string "XY") EOT x07]
        ++ frame_events (block 1 STX (list_byte_of_string "CD") ETX x06)
        ++ [])
       [])
  = (Ok (Collaborators.add_bcc
           (list_byte_of_string "AB" ++ [x0d; x0a]
            ++ list_byte_of_string "XY" ++ [x0d; x0a]
            ++ list_byte_of_string "CD" ++ [ETX])),
     mkWorld 5 [] [[x15]; [x06]; [x15]; [x06]]).
Proof.
  exact (read_message_with_retries example_port None
           (block 1 STX (list_byte_of_string "AB") EOT "E"%byte)
           [block 1 STX (list_byte_of_string "AB") EOT x05;
            block 1 STX (list_byte_of_string "XY") EOT "?"%byte;
            block 1 STX (list_byte_of_string "XY") EOT x07]
           (block 1 STX (list_byte_of_string "CD") ETX x06) 0 [] []
           (serial_online _ _ _) eq_refl eq_refl).
Defined.

(** X1: the contract of [simple_read] for arbitrary delimiters.  Whatever
    the calls deliver before the start delimiter is dropped (empty reads
    included); from the start delimiter on, the first byte of every call is
    kept up to and including the end delimiter; the result is the start
    delimiter, those bytes and the end delimiter.  Nothing is written and
    what follows the end delimiter stays unread. *)
Theorem simple_read_returns_delimited
    {U : Utils} {C : Constants} {T : Type} {TT : Transport T}
    (self : T) (start_char end_char : str_or_bytes) (timeout' : option Z)
    (junk text : list (Z * bytes)) (d1 d2 : Z) (c1 c2 : bytes)
    (n : Z) (rest : list rx_event) (t : list bytes) :
  online self ->
  firstn 1 c1 = ensure_bytes start_char ->
  firstn 1 c2 = ensure_bytes end_char ->
  free_chunks (ensure_bytes start_char) junk = true ->
  free_chunks (ensure_bytes end_char) text = true ->
  in_time (timeout self) 0
    (map fst junk ++ d1 :: map fst text ++ [d2]) = true ->
  simple_read self start_char end_char timeout'
    (mkWorld n
       (chunks junk ++ Arrive d1 c1 :: chunks text ++ Arrive d2 c2 :: rest)
       t)
  = (Ok (ensure_bytes start_char ++ flat text ++ ensure_bytes end_char),
     mkWorld (n + total (map fst junk ++ d1 :: map fst text ++ [d2]))
       rest t).
Proof.
  intros Hon Hc1 Hc2 Hjunk Htext Ht.
  unfold simple_read. cbn [rx].
  unfold bind at 1, time at 1. cbn [now].
  rewrite in_time_app in Ht. apply andb_prop in Ht. destruct Ht as [Htj Ht].
  change (in_time (timeout self) (0 + total (map fst junk))
            (d1 :: map fst text ++ [d2]))
    with ((0 + total (map fst junk) + d1 <=? timeout self)
          && in_time (timeout self) (0 + total (map fst junk) + d1)
               (map fst text ++ [d2])) in Ht.
  apply andb_prop in Ht. destruct Ht as [Hd1 Ht].
  rewrite in_time_app in Ht. apply andb_prop in Ht. destruct Ht as [Htt Hd2].
  cbn [in_time] in Hd2. rewrite andb_true_r in Hd2.
  apply Z.leb_le in Hd1. apply Z.leb_le in Hd2.
  replace (S (List.length (chunks junk ++ Arrive d1 c1
             :: chunks text ++ Arrive d2 c2 :: rest)))
    with (List.length junk
          + S (List.length text + S (S (List.length rest))))%nat
    by (unfold chunks; rewrite !length_app; cbn [List.length];
        rewrite !length_app, !length_map; cbn [List.length]; lia).
  rewrite (simple_read_pass_chunks self Hon _ _ false junk); auto;
    [|rewrite Z.sub_diag; exact Htj].
  rewrite (simple_read_step self Hon). cbv zeta.
  rewrite gtb_within by lia.
  cbn [negb]. rewrite Hc1, bytes_eqb_refl.
  rewrite (simple_read_pass_chunks self Hon _ _ true text); auto.
  - rewrite (simple_read_step self Hon). cbv zeta.
    rewrite gtb_within by lia.
    cbn [negb]. rewrite Hc2, bytes_eqb_refl.
    rewrite total_app.
    change (total (d1 :: map fst text ++ [d2]))
      with (d1 + total (map fst text ++ [d2])).
    rewrite total_app. cbn [total fold_right].
    rewrite Z.add_0_r, !Z.add_assoc, <- !app_assoc. reflexivity.
  - replace (n + total (map fst junk) + d1 - n)
      with (0 + total (map fst junk) + d1) by lia.
    exact Htt.
Qed.

(** A line between [/] and the line feed, with an empty read and junk in
    front and an empty read in the middle. *)
Lemma simple_read_returns_delimited_witness :
  simple_read example_socket (Str "/") (Bytes [x0a]) None
    (mkWorld 0
       (chunks [(3, []); (0, ["?"%byte])] ++ Arrive 0 ["/"%byte]
        :: chunks [(1, ["A"%byte]); (3, []); (1, ["B"%byte])]
        ++ Arrive 2 [x0a] :: [Arrive 9 ["Z"%byte]])
       [])
  = (Ok ["/"%byte; "A"%byte; "B"%byte; x0a],
     mkWorld 10 [Arrive 9 ["Z"%byte]] []).
Proof.
  exact (simple_read_returns_delimited (U := concrete_utils) example_socket (Str "/")
           (Bytes [x0a]) None [(3, []); (0, ["?"%byte])]
           [(1, ["A"%byte]); (3, []); (1, ["B"%byte])] 0 2 ["/"%byte] [x0a]
           0 [Arrive 9 ["Z"%byte]] []
           (tcp_online _ _) eq_refl eq_refl eq_refl eq_refl eq_refl).
Defined.

(** X2: [simple_read] gives up with the timeout error, and returns nothing
    of what it has collected, when a call returns after the timeout -
    whether the start delimiter has not been seen yet or the end delimiter
    is still missing.  Nothing is written. *)
Theorem simple_read_times_out
    {U : Utils} {C : Constants} {T : Type} {TT : Transport T}
    (self : T) (start_char end_char : str_or_bytes) (timeout' : option Z)
    (junk text : list (Z * bytes)) (d1 : Z) (c1 : bytes) (dt : Z)
    (data : bytes) (n : Z) (rest : list rx_event) (t : list bytes) :
  online self ->
  firstn 1 c1 = ensure_bytes start_char ->
  free_chunks (ensure_bytes start_char) junk = true ->
  free_chunks (ensure_bytes end_char) text = true ->
  (in_time (timeout self) 0 (map fst junk) = true ->
   timeout self < total (map fst junk) + dt ->
   simple_read self start_char end_char timeout'
     (mkWorld n (chunks junk ++ Arrive dt data :: rest) t)
   = (Raise TimeoutError,
      mkWorld (n + total (map fst junk) + dt) rest t))
  /\ (in_time (timeout self) 0 (map fst junk ++ d1 :: map fst text) = true ->
      timeout self < total (map fst junk ++ d1 :: map fst text) + dt ->
      simple_read self start_char end_char timeout'
        (mkWorld n
           (chunks junk ++ Arrive d1 c1 :: chunks text
            ++ Arrive dt data :: rest)
           t)
      = (Raise TimeoutError,
         mkWorld (n + total (map fst junk ++ d1 :: map fst text) + dt)
           rest t)).
Proof.
  intros Hon Hc1 Hjunk Htext. split.
  - intros Ht Hlate. unfold simple_read. cbn [rx].
    unfold bind at 1, time at 1. cbn [now].
    replace (S (List.length (chunks junk ++ Arrive dt data :: rest)))
      with (List.length junk + S (S (List.length rest)))%nat
      by (unfold chunks; rewrite length_app, length_map; cbn [List.length];
          lia).
    rewrite (simple_read_pass_chunks self Hon _ _ false junk); auto;
      [|rewrite Z.sub_diag; exact Ht].
    apply (simple_read_late self Hon). lia.
  - intros Ht Hlate. unfold simple_read. cbn [rx].
    unfold bind at 1, time at 1. cbn [now].
    rewrite in_time_app in Ht. apply andb_prop in Ht.
    destruct Ht as [Htj Ht].
    change (in_time (timeout self) (0 + total (map fst junk))
              (d1 :: map fst text))
      with ((0 + total (map fst junk) + d1 <=? timeout self)
            && in_time (timeout self) (0 + total (map fst junk) + d1)
                 (map fst text)) in Ht.
    apply andb_prop in Ht. destruct Ht as [Hd1 Htt]. apply Z.leb_le in Hd1.
    rewrite total_app in *.
    change (total (d1 :: map fst text)) with (d1 + total (map fst text)) in *.
    replace (S (List.length (chunks junk ++ Arrive d1 c1
               :: chunks text ++ Arrive dt data :: rest)))
      with (List.length junk
            + S (List.length text + S (S (List.length rest))))%nat
      by (unfold chunks; rewrite !length_app; cbn [List.length];
          rewrite !length_app, !length_map; cbn [List.length]; lia).
    rewrite (simple_read_pass_chunks self Hon _ _ false junk); auto;
      [|rewrite Z.sub_diag; exact Htj].
    rewrite (simple_read_step self Hon). cbv zeta.
    rewrite gtb_within by lia.
    cbn [negb]. rewrite Hc1, bytes_eqb_refl.
    rewrite (simple_read_pass_chunks self Hon _ _ true text); auto.
    + rewrite (simple_read_late self Hon) by lia.
      rewrite !Z.add_assoc. reflexivity.
    + replace (n + total (map fst junk) + d1 - n)
        with (0 + total (map fst junk) + d1) by lia.
      exact Htt.
Qed.

(** Junk and a silence that outlasts the timeout; and the start delimiter
    and two bytes before such a silence. *)
Lemma simple_read_times_out_witness :
  simple_read example_port (Str "/") (Str "!") None
    (mkWorld 0 (chunks [(4, ["x"%byte])] ++ Arrive 7 [] :: []) [])
  = (Raise TimeoutError, mkWorld 11 [] [])
  /\ simple_read example_port (Str "/") (Str "!") None
       (mkWorld 0
          (chunks [(4, ["x"%byte])] ++ Arrive 1 ["/"%byte]
           :: chunks [(1, ["h"%byte]); (1, ["i"%byte])]
           ++ Arrive 5 ["!"%byte] :: [])
          [])
     = (Raise TimeoutError, mkWorld 12 [] []).
Proof.
  destruct (simple_read_times_out (U := concrete_utils) example_port (Str "/") (Str "!") None
              [(4, ["x"%byte])] [(1, ["h"%byte]); (1, ["i"%byte])] 1
              ["/"%byte] 7 [] 0 [] [] (serial_online _ _ _)
              eq_refl eq_refl eq_refl) as [Hfirst _].
  destruct (simple_read_times_out (U := concrete_utils) example_port (Str "/") (Str "!") None
              [(4, ["x"%byte])] [(1, ["h"%byte]); (1, ["i"%byte])] 1
              ["/"%byte] 5 ["!"%byte] 0 [] [] (serial_online _ _ _)
              eq_refl eq_refl eq_refl) as [_ Hlater].
  split.
  - apply Hfirst; [reflexivity | cbn; lia].
  - apply Hlater; [reflexivity | cbn; lia].
Defined.

(** X3: a failure of the underlying resource during [read] is not turned
    into a timeout, even when it comes after the timeout has passed: the
    exception leaves [recv] before the elapsed time is compared.  Over TCP
    the caller gets the transport error (the socket's exception is
    wrapped); over the serial port the resource's own exception comes
    through unwrapped.  The replies to earlier blocks have been sent. *)
Theorem read_resource_failure
    {U : Utils} {C : Constants}
    (name : string) (addr : string * Z) (tmo baud : Z)
    (timeout' : option Z) (rs : list frame) (part : timed) (dt : Z)
    (n : Z) (rest : list rx_event) (t : list bytes) :
  forallb (passing_block tmo) rs = true ->
  stx_led part = true ->
  free_of end_chars (data_of part) = true ->
  in_time tmo 0 (delays part) = true ->
  let w := mkWorld n (stream rs ++ wire part ++ Fault dt :: rest) t in
  let w' :=
    mkWorld (n + stream_span rs + total (delays part) + dt) rest
      (t ++ replies rs) in
  read (open_tcp addr tmo) timeout' w = (Raise TransportError, w')
  /\ read (open_serial name tmo baud) timeout' w = (Raise OSError, w').
Proof.
  intros Hrs Hled Hfree Ht w w'. split.
  - apply (read_interrupted (open_tcp addr tmo) (tcp_online _ _)); auto.
    intros chars n0 dt0 rest0 t0. reflexivity.
  - apply (read_interrupted (open_serial name tmo baud)
             (serial_online _ _ _)); auto.
    intros chars n0 dt0 rest0 t0. reflexivity.
Qed.

(** An accepted partial block, an STX and a byte, and a failure that comes
    twenty ticks later under a timeout of ten. *)
Lemma read_resource_failure_witness :
  let w :=
    mkWorld 0
      (stream [block 1 STX (list_byte_of_string "AB") EOT x05]
       ++ wire [(1, STX); (1, "C"%byte)] ++ Fault 20 :: [])
      [] in
  read (open_tcp ("192.0.2.1"%string, 8000) 10) None w
  = (Raise TransportError, mkWorld 23 [] [[x06]])
  /\ read (open_serial "/dev/ttyUSB0" 10 300) None w
     = (Raise OSError, mkWorld 23 [] [[x06]]).
Proof.
  exact (read_resource_failure (U := concrete_utils)
           (C := concrete_constants) "/dev/ttyUSB0"
           ("192.0.2.1"%string, 8000) 10 300 None
           [block 1 STX (list_byte_of_string "AB") EOT x05]
           [(1, STX); (1, "C"%byte)] 20 0 [] []
           eq_refl eq_refl eq_refl eq_refl).
Defined.

(** X5: on a transport whose resource is closed, [read] and [simple_read]
    raise the transport error at their first [recv]: nothing is taken from
    the peer, nothing is written, and no time passes. *)
Theorem read_on_closed_transport
    {U : Utils} {C : Constants}
    (name : string) (addr : string * Z) (tmo : Z) (timeout' : option Z)
    (start_char end_char : str_or_bytes) (w : World) :
  read (closed_serial name tmo) timeout' w = (Raise TransportError, w)
  /\ simple_read (closed_serial name tmo) start_char end_char timeout' w
     = (Raise TransportError, w)
  /\ read (closed_tcp addr tmo) timeout' w = (Raise TransportError, w)
  /\ simple_read (closed_tcp addr tmo) start_char end_char timeout' w
     = (Raise TransportError, w).
Proof.
  repeat split; reflexivity.
Qed.

(** X6: the life of a resource.  [disconnect] on an open serial port or
    socket gives the closed transport with its name (address) and timeout
    kept, writes nothing and takes nothing.  After it a second
    [disconnect], a [send], a [read] and, on the serial port, a
    [switch_baudrate] all raise the transport error; a [switch_baudrate]
    before the [disconnect] does not get in its way. *)
Theorem disconnect_closes
    {U : Utils} {C : Constants}
    (name : string) (addr : string * Z) (tmo baud : Z)
    (port : SerialTransport.Serial) (sock : TcpTransport.Socket)
    (data : bytes) (timeout' : option Z) (w : World) :
  let serial :=
    {| SerialTransport.port_name := name; SerialTransport.timeout := tmo;
       SerialTransport.port := Some port |} in
  let tcp :=
    {| TcpTransport.address := addr; TcpTransport.timeout := tmo;
       TcpTransport.socket := Some sock |} in
  disconnect serial w = (Ok (closed_serial name tmo), w)
  /\ (s <- disconnect serial ;; disconnect s) w = (Raise TransportError, w)
  /\ (s <- disconnect serial ;; send s data) w = (Raise TransportError, w)
  /\ (s <- disconnect serial ;; read s timeout') w
     = (Raise TransportError, w)
  /\ (s <- disconnect serial ;; switch_baudrate s baud) w
     = (Raise TransportError, w)
  /\ (s <- switch_baudrate serial baud ;; disconnect s) w
     = (Ok (closed_serial name tmo), w)
  /\ disconnect tcp w = (Ok (closed_tcp addr tmo), w)
  /\ (s <- disconnect tcp ;; disconnect s) w = (Raise TransportError, w)
  /\ (s <- disconnect tcp ;; send s data) w = (Raise TransportError, w)
  /\ (s <- disconnect tcp ;; read s timeout') w
     = (Raise TransportError, w)
  /\ (s <- disconnect tcp ;; switch_baudrate s baud) w
     = (Ok (closed_tcp addr tmo), w).
Proof.
  cbv zeta. repeat split; reflexivity.
Qed.

(** X7: a single block is taken from the line as it comes.  Calls that
    return before the STX are skipped, whatever they deliver; after the STX
    the first byte of each call is kept and a call that returns nothing
    adds nothing; the byte of the call after the ETX is taken for the
    checksum.  If [bcc_valid] accepts the block so gathered, [read] returns
    it whole, writes nothing and leaves what follows unread. *)
Theorem read_single_block_from_line
    {U : Utils} {C : Constants} {T : Type} {TT : Transport T}
    (self : T) (timeout' : option Z) (pre mid : list (Z * bytes))
    (d d' d'' : Z) (c : bytes) (n : Z) (rest : list rx_event)
    (t : list bytes) :
  online self ->
  no_start pre = true ->
  no_end mid = true ->
  in_time (timeout self) 0 (map fst pre ++ d :: map fst mid ++ [d']) = true ->
  bcc_valid (STX :: flat mid ++ ETX :: firstn 1 c) = true ->
  read self timeout'
    (mkWorld n
       (chunks pre ++ Arrive d [STX] :: chunks mid
        ++ Arrive d' [ETX] :: Arrive d'' c :: rest)
       t)
  = (Ok (STX :: flat mid ++ ETX :: firstn 1 c),
     mkWorld (n + total (map fst pre ++ d :: map fst mid ++ [d']) + d'')
       rest t).
Proof.
  intros Hon Hpre Hmid Ht Hv. unfold read. cbn [rx].
  rewrite in_time_app in Ht. apply andb_prop in Ht. destruct Ht as [Htp Ht].
  change (in_time (timeout self) (0 + total (map fst pre))
            (d :: map fst mid ++ [d']))
    with ((0 + total (map fst pre) + d <=? timeout self)
          && in_time (timeout self) (0 + total (map fst pre) + d)
               (map fst mid ++ [d'])) in Ht.
  apply andb_prop in Ht. destruct Ht as [Hd Ht].
  rewrite in_time_app in Ht. apply andb_prop in Ht. destruct Ht as [Htm Hd'].
  cbn [in_time] in Hd'. rewrite andb_true_r in Hd'.
  apply Z.leb_le in Hd. apply Z.leb_le in Hd'.
  replace (List.length (chunks pre ++ Arrive d [STX] :: chunks mid
             ++ Arrive d' [ETX] :: Arrive d'' c :: rest))
    with (List.length pre
          + S (List.length mid + S (S (List.length rest))))%nat
    by (unfold chunks; rewrite !length_app; cbn [List.length];
        rewrite !length_app, !length_map; cbn [List.length]; lia).
  cbn [read_blocks]. unfold bind at 1, time at 1. cbn [now].
  unfold bind at 1.
  replace (S (List.length pre
              + S (List.length mid + S (S (List.length rest)))))
    with (List.length pre
          + S (List.length mid + S (S (S (List.length rest)))))%nat
    by lia.
  rewrite (read_block_quiet self Hon); auto;
    [|rewrite Z.sub_diag; exact Htp].
  rewrite (read_block_start self Hon); auto; [|lia].
  rewrite (read_block_chunks self Hon); auto.
  - rewrite (read_block_end self Hon); auto; [|lia].
    cbn [fst snd start_char end_char]. unfold bind at 1.
    rewrite (recv_arrive self Hon).
    cbn [opt_bytes_eqb].
    change (bytes_eqb [STX] [SOH]) with false.
    change (bytes_eqb [ETX] [EOT]) with false.
    change (bytes_eqb [ETX] [ETX]) with true. cbv iota.
    cbn [app]. rewrite <- app_assoc. cbn [app]. rewrite Hv.
    cbn [negb]. change (0 + 1 >? 1) with false. cbv iota. unfold ret.
    rewrite total_app.
    change (total (d :: map fst mid ++ [d']))
      with (d + total (map fst mid ++ [d'])).
    rewrite total_app. cbn [total fold_right].
    rewrite Z.add_0_r, !Z.add_assoc. reflexivity.
  - replace (n + total (map fst pre) + d - n)
      with (0 + total (map fst pre) + d) by lia.
    exact Htm.
Qed.

(** Noise and an empty read before the STX, an empty read inside the
    block. *)
Lemma read_single_block_from_line_witness :
  read example_port None
    (mkWorld 0
       (chunks [(1, ["~"%byte]); (5, [])] ++ Arrive 1 [STX]
        :: chunks [(0, ["A"%byte]); (3, [])]
        ++ Arrive 0 [ETX] :: Arrive 9 ["@"%byte] :: [])
       [])
  = (Ok [STX; "A"%byte; ETX; "@"%byte], mkWorld 19 [] []).
Proof.
  exact (read_single_block_from_line (U := concrete_utils) example_port None
           [(1, ["~"%byte]); (5, [])] [(0, ["A"%byte]); (3, [])]
           1 0 9 ["@"%byte] 0 [] []
           (serial_online _ _ _) eq_refl eq_refl eq_refl eq_refl).
Defined.

(** X9: in a block after the first, [read] does not look for the STX: the
    first byte of the block is removed whatever it is.  A valid partial
    block followed by a final block that begins with any byte [x] other
    than an end character yields the same message as if [x] were the
    STX. *)
Theorem read_later_block_first_byte_dropped
    {U : Utils} {C : Constants} {T : Type} {TT : Transport T}
    (self : T) (timeout' : option Z) (p q : frame) (x : byte) (n : Z)
    (rest : list rx_event) (t : list bytes) :
  online self ->
  good_block (timeout self) EOT p = true ->
  well_framed x ETX q = true ->
  py_in [x] end_chars = false ->
  on_time (timeout self) q = true ->
  bcc_valid (frame_bytes q) = true ->
  read self timeout'
    (mkWorld n (frame_events p ++ frame_events q ++ rest) t)
  = (Ok (add_bcc (STX :: data_of (body p) ++ encode LINE_END
                  ++ data_of (body q) ++ [ETX])),
     mkWorld (n + frame_span p + frame_span q) rest (t ++ [encode ACK])).
Proof.
  intros Hon Hp Hq Hx Ht Hv. unfold read. cbn [rx].
  rewrite (read_blocks_ack self Hon); auto; [|left; reflexivity|].
  2:{ rewrite length_app, frame_events_length. lia. }
  change (0 + 1 >? 1) with false. cbv iota.
  destruct (well_framed_inv _ _ _ Hq) as (Hs & Htr & Hfree).
  assert (Hfb := frame_bytes_shape _ _ _ Hq).
  rewrite (frame_span_split q).
  rewrite (frame_events_split q), <- app_assoc, !length_app.
  rewrite frame_events_length.
  destruct q as [[dl sl] bd [dtr etr] [dc c]].
  cbn [lead trail body check fst snd] in *. subst sl etr.
  change (framed {| lead := (dl, x); body := bd; trail := (dtr, ETX);
                    check := (dc, c) |})
    with (((dl, x) :: bd) ++ [(dtr, ETX)]) in *.
  unfold on_time in Ht.
  change (framed {| lead := (dl, x); body := bd; trail := (dtr, ETX);
                    check := (dc, c) |})
    with (((dl, x) :: bd) ++ [(dtr, ETX)]) in Ht.
  cbn [Nat.add].
  cbn [read_blocks]. unfold bind at 1, time at 1. cbn [now].
  unfold bind at 1.
  rewrite (read_block_run self Hon ((dl, x) :: bd) dtr ETX); auto.
  - cbn [fst snd app stx_state start_char end_char]. unfold bind at 1.
    rewrite (recv_arrive self Hon). cbn [firstn opt_bytes_eqb].
    change (bytes_eqb [STX] [SOH]) with false.
    change (bytes_eqb [ETX] [EOT]) with false.
    change (bytes_eqb [ETX] [ETX]) with true. cbv iota.
    change (data_of ((dl, x) :: bd)) with (x :: data_of bd).
    rewrite Hfb in Hv.
    replace (((x :: data_of bd) ++ [ETX]) ++ [c])
      with (x :: data_of bd ++ [ETX; c])
      by (cbn [app]; rewrite <- app_assoc; reflexivity).
    rewrite Hv. cbn [negb].
    change (0 + 1 + 1 >? 1) with true. cbv iota. unfold ret.
    cbn [drop_first skipn].
    replace (STX :: (data_of (body p) ++ encode LINE_END)
                 ++ data_of bd ++ [ETX; c])
      with ((STX :: data_of (body p) ++ encode LINE_END
                 ++ data_of bd ++ [ETX]) ++ [c])
      by (cbn [app]; rewrite <- !app_assoc; reflexivity).
    rewrite removelast_last. rewrite !Z.add_assoc. reflexivity.
  - unfold free_of. cbn [data_of map snd forallb]. rewrite Hx.
    exact Hfree.
  - rewrite Z.sub_diag. exact Ht.
  - unfold wire. rewrite !length_map, !length_app. cbn [List.length]. lia.
Qed.

(** The second block begins with a NUL instead of the STX. *)
Lemma read_later_block_first_byte_dropped_witness :
  read example_port None
    (mkWorld 0
       (frame_events (block 1 STX (list_byte_of_string "AB") EOT x05)
        ++ frame_events (block 1 x00 (list_byte_of_string "CD") ETX x04)
        ++ [])
       [])
  = (Ok (Collaborators.add_bcc
           (STX :: list_byte_of_string "AB" ++ [x0d; x0a]
                ++ list_byte_of_string "CD" ++ [ETX])),
     mkWorld 2 [] [[x06]]).
Proof.
  exact (read_later_block_first_byte_dropped (U := concrete_utils)
           example_port None
           (block 1 STX (list_byte_of_string "AB") EOT x05)
           (block 1 x00 (list_byte_of_string "CD") ETX x04) x00 0 [] []
           (serial_online _ _ _) eq_refl eq_refl eq_refl eq_refl eq_refl).
Defined.

(** ** What the calls write *)

Lemma serial_honest (self : SerialTransport.t) : honest self.
Proof.
  split.
  - intros chars w. cbn. unfold SerialTransport._recv.
    destruct (SerialTransport.port self); [|reflexivity].
    unfold resource_read. destruct (rx w) as [|[dt data|dt] rest];
      reflexivity.
  - intros data w. cbn. unfold SerialTransport._send.
    destruct (SerialTransport.port self); [right|left]; reflexivity.
Qed.

Lemma tcp_honest (self : TcpTransport.t) : honest self.
Proof.
  split.
  - intros chars w. cbn. unfold TcpTransport._recv.
    destruct (TcpTransport.socket self); [|reflexivity].
    unfold except_OSError, resource_read.
    destruct (rx w) as [|[dt data|dt] rest]; reflexivity.
  - intros data w. cbn. unfold TcpTransport._send.
    destruct (TcpTransport.socket self); [right|left]; reflexivity.
Qed.

Section Writes.

Context {U : Utils} {C : Constants} {T : Type} {TT : Transport T}.
Variable self : T.
Hypothesis Hh : honest self.

Lemma read_block_tx (k : nat) :
  forall (start : Z) (in_data : bytes) (st : block_state) (w : World),
    tx (snd (read_block k self start in_data st w)) = tx w.
Proof.
  induction k as [|k IH]; intros start in_data st w; [reflexivity|].
  cbn [read_block]. unfold bind at 1, recv.
  pose proof (proj1 Hh 1%nat w) as Hr.
  destruct (_recv self 1 w) as [[b|e| |] w1]; cbn [snd] in Hr |- *;
    try exact Hr.
  unfold bind at 1, time at 1. cbv beta iota.
  destruct (now w1 - start >? timeout self); [exact Hr|].
  destruct (negb (start_char_received st)).
  - destruct (py_in b start_chars); rewrite IH; exact Hr.
  - destruct (py_in b end_chars); [exact Hr | rewrite IH; exact Hr].
Qed.

Lemma simple_read_loop_tx (sc ec : bytes) (k : nat) :
  forall (start : Z) (in_data : bytes) (seen : bool) (w : World),
    tx (snd (simple_read_loop k self sc ec start in_data seen w)) = tx w.
Proof.
  induction k as [|k IH]; intros start in_data seen w; [reflexivity|].
  cbn [simple_read_loop]. unfold bind at 1, recv.
  pose proof (proj1 Hh 1%nat w) as Hr.
  destruct (_recv self 1 w) as [[b|e| |] w1]; cbn [snd] in Hr |- *;
    try exact Hr.
  unfold bind at 1, time at 1. cbv beta iota.
  destruct (now w1 - start >? timeout self); [exact Hr|].
  destruct (negb seen).
  - destruct (bytes_eqb b sc); rewrite IH; exact Hr.
  - destruct (bytes_eqb b ec); [exact Hr | rewrite IH; exact Hr].
Qed.

Lemma only_replies_cons (m : bytes) (l : list bytes) :
  m = encode ACK \/ m = encode NACK -> only_replies l ->
  only_replies (m :: l).
Proof. intros Hm Hl. constructor; assumption. Qed.

Lemma read_blocks_tx (k : nat) :
  forall (total_data : bytes) (packets : Z) (st : block_state) (w : World),
    exists l,
      tx (snd (read_blocks k self total_data packets st w)) = tx w ++ l
      /\ only_replies l.
Proof.
  induction k as [|k IH]; intros total_data packets st w.
  - exists []. split; [cbn; rewrite app_nil_r; reflexivity | constructor].
  - assert (Hnone : forall w', tx w' = tx w ->
              exists l, tx w' = tx w ++ l /\ only_replies l).
    { intros w' H. exists []. rewrite app_nil_r. split; [exact H|].
      constructor. }
    cbn [read_blocks]. unfold bind at 1, time at 1. cbv beta iota.
    unfold bind at 1.
    pose proof (read_block_tx (S k) (now w) [] st w) as Hb.
    destruct (read_block (S k) self (now w) [] st w)
      as [[[d st']|e| |] w1]; cbn [snd fst] in Hb |- *;
      try (apply Hnone; exact Hb).
    unfold bind at 1, recv.
    pose proof (proj1 Hh 1%nat w1) as Hr.
    destruct (_recv self 1 w1) as [[b|e| |] w2]; cbn [snd] in Hr |- *;
      try (apply Hnone; congruence).
    assert (Hw2 : tx w2 = tx w) by congruence.
    assert (Hsend : forall m d' p' s',
               m = encode ACK \/ m = encode NACK ->
               exists l,
                 tx (snd ((send self m ;;; read_blocks k self d' p' s') w2))
                 = tx w ++ l /\ only_replies l).
    { intros m d' p' s' Hm. unfold bind, send.
      pose proof (proj2 Hh m w2) as Hs.
      destruct (_send self m w2) as [[u|e| |] w3]; cbn [snd] in Hs |- *.
      - destruct (IH d' p' s' w3) as [l [Hl Hrep]].
        destruct Hs as [Hs | Hs].
        + exists l. rewrite Hl, Hs, Hw2. auto.
        + exists (m :: l). rewrite Hl, Hs, Hw2, <- app_assoc.
          split; [reflexivity | apply only_replies_cons; assumption].
      - destruct Hs as [Hs | Hs].
        + exists []. rewrite Hs, Hw2, app_nil_r. split; [auto|constructor].
        + exists [m]. rewrite Hs, Hw2.
          split; [reflexivity | apply only_replies_cons; auto; constructor].
      - destruct Hs as [Hs | Hs].
        + exists []. rewrite Hs, Hw2, app_nil_r. split; [auto|constructor].
        + exists [m]. rewrite Hs, Hw2.
          split; [reflexivity | apply only_replies_cons; auto; constructor].
      - destruct Hs as [Hs | Hs].
        + exists []. rewrite Hs, Hw2, app_nil_r. split; [auto|constructor].
        + exists [m]. rewrite Hs, Hw2.
          split; [reflexivity | apply only_replies_cons; auto; constructor]. }
    destruct (opt_bytes_eqb (start_char st') [SOH]);
      [apply Hnone; exact Hw2|].
    destruct (opt_bytes_eqb (end_char st') [EOT]).
    + destruct (negb (bcc_valid (d ++ b))); apply Hsend; auto.
    + destruct (opt_bytes_eqb (end_char st') [ETX]).
      * destruct (negb (bcc_valid (d ++ b)));
          [apply Hsend; auto | apply Hnone; exact Hw2].
      * destruct (IH total_data (packets + 1) st' w2) as [l [Hl Hrep]].
        exists l. rewrite Hl, Hw2. auto.
Qed.

End Writes.

(** X10: whatever the peer delivers, and however the call ends, [read]
    writes nothing to the transport but ACK and NACK replies, and
    [simple_read] writes nothing at all. *)
Theorem reads_write_only_replies
    {U : Utils} {C : Constants} {T : Type} {TT : Transport T}
    (self : T) (timeout' : option Z) (start_char end_char : str_or_bytes)
    (w : World) :
  honest self ->
  (exists l,
      tx (snd (read self timeout' w)) = tx w ++ l /\ only_replies l)
  /\ tx (snd (simple_read self start_char end_char timeout' w)) = tx w.
Proof.
  intros Hh. split.
  - unfold read. apply read_blocks_tx. exact Hh.
  - unfold simple_read, bind, time. cbv beta iota.
    apply simple_read_loop_tx. exact Hh.
Qed.

(** A line of noise that ends in the middle of a block. *)
Lemma reads_write_only_replies_witness :
  (exists l,
      tx (snd (read example_port None
                 (mkWorld 0 (at_once (list_byte_of_string "noise")
                             ++ at_once [STX; "A"%byte; EOT; "?"%byte]
                             ++ at_once [STX; ETX])
                    [[x2f]])))
      = [[x2f]] ++ l
      /\ only_replies l)
  /\ tx (snd (simple_read example_port (Str "/") (Str "!") None
                (mkWorld 0 (at_once (list_byte_of_string "noise")
                            ++ at_once [STX; "A"%byte; EOT; "?"%byte]
                            ++ at_once [STX; ETX])
                   [[x2f]])))
     = [[x2f]].
Proof.
  exact (reads_write_only_replies example_port None (Str "/") (Str "!")
           (mkWorld 0 (at_once (list_byte_of_string "noise")
                       ++ at_once [STX; "A"%byte; EOT; "?"%byte]
                       ++ at_once [STX; ETX])
              [[x2f]])
           (serial_honest _)).
Defined.

(** ** Delimiters of more than one byte *)

Lemma serial_bounded (self : SerialTransport.t) : bounded_recv self.
Proof.
  intros chars w b w'. cbn. unfold SerialTransport._recv.
  destruct (SerialTransport.port self); [|discriminate].
  unfold resource_read. destruct (rx w) as [|[dt data|dt] rest];
    try discriminate.
  intros H. injection H as <- _. rewrite length_firstn. lia.
Qed.

Lemma tcp_bounded (self : TcpTransport.t) : bounded_recv self.
Proof.
  intros chars w b w'. cbn. unfold TcpTransport._recv.
  destruct (TcpTransport.socket self); [|discriminate].
  unfold except_OSError, resource_read.
  destruct (rx w) as [|[dt data|dt] rest]; try discriminate.
  intros H. injection H as <- _. rewrite length_firstn. lia.
Qed.

Lemma bytes_eqb_longer (a b : bytes) :
  (List.length a < List.length b)%nat -> bytes_eqb a b = false.
Proof.
  intros Hlen. destruct (bytes_eqb a b) eqn:E; [|reflexivity].
  apply bytes_eqb_eq in E. subst b. lia.
Qed.

Section LongDelimiters.

Context {U : Utils} {C : Constants} {T : Type} {TT : Transport T}.
Variable self : T.
Hypothesis Hb : bounded_recv self.

Lemma simple_read_loop_never_ends (sc ec : bytes) (k : nat) :
  (1 < List.length ec)%nat ->
  forall (start : Z) (in_data : bytes) (seen : bool) (w : World) (r : bytes),
    fst (simple_read_loop k self sc ec start in_data seen w) <> Ok r.
Proof.
  intros Hec.
  induction k as [|k IH]; intros start in_data seen w r; [discriminate|].
  cbn [simple_read_loop]. unfold bind at 1, recv.
  pose proof (Hb 1%nat w) as Hr.
  destruct (_recv self 1 w) as [[b|e| |] w1]; cbn [fst]; try discriminate.
  specialize (Hr b w1 eq_refl).
  unfold bind at 1, time at 1. cbv beta iota.
  destruct (now w1 - start >? timeout self); [discriminate|].
  destruct (negb seen).
  - destruct (bytes_eqb b sc); apply IH.
  - rewrite (bytes_eqb_longer b ec) by lia. apply IH.
Qed.

Lemma simple_read_loop_never_starts (sc ec : bytes) (k : nat) :
  (1 < List.length sc)%nat ->
  forall (start : Z) (in_data : bytes) (w : World) (r : bytes),
    fst (simple_read_loop k self sc ec start in_data false w) <> Ok r.
Proof.
  intros Hsc.
  induction k as [|k IH]; intros start in_data w r; [discriminate|].
  cbn [simple_read_loop]. unfold bind at 1, recv.
  pose proof (Hb 1%nat w) as Hr.
  destruct (_recv self 1 w) as [[b|e| |] w1]; cbn [fst]; try discriminate.
  specialize (Hr b w1 eq_refl).
  unfold bind at 1, time at 1. cbv beta iota.
  destruct (now w1 - start >? timeout self); [discriminate|].
  cbn [negb]. rewrite (bytes_eqb_longer b sc) by lia. apply IH.
Qed.

End LongDelimiters.

(** X11: [simple_read] compares each single received byte with the whole
    delimiter.  With a start or an end delimiter of more than one byte (a
    two-character line end, say) it never returns a result, whatever
    arrives: the call can only end in an error. *)
Theorem simple_read_long_delimiter
    {U : Utils} {C : Constants} {T : Type} {TT : Transport T}
    (self : T) (start_char end_char : str_or_bytes) (timeout' : option Z)
    (w : World) (r : bytes) :
  bounded_recv self ->
  (1 < List.length (ensure_bytes start_char))%nat
  \/ (1 < List.length (ensure_bytes end_char))%nat ->
  fst (simple_read self start_char end_char timeout' w) <> Ok r.
Proof.
  intros Hb Hlong. unfold simple_read, bind, time. cbv beta iota.
  destruct Hlong as [Hsc | Hec].
  - apply simple_read_loop_never_starts; assumption.
  - apply simple_read_loop_never_ends; assumption.
Qed.

(** A line that ends in CR LF, read with CR LF as the end delimiter. *)
Lemma simple_read_long_delimiter_witness :
  fst (simple_read example_port (Str "/")
         (Bytes [x0d; x0a]) None
         (mkWorld 0 (at_once ["/"%byte; "A"%byte; x0d; x0a]) []))
  <> Ok ["/"%byte; "A"%byte; x0d; x0a].
Proof.
  apply (simple_read_long_delimiter (U := concrete_utils) example_port
           (Str "/") (Bytes [x0d; x0a]) None
           (mkWorld 0 (at_once ["/"%byte; "A"%byte; x0d; x0a]) [])
           ["/"%byte; "A"%byte; x0d; x0a] (serial_bounded _)).
  right. cbn. lia.
Defined.

(** X12: calls in sequence on one transport.  A [simple_read] that takes a
    delimited line followed by a [read] that takes a single valid block
    return the line and the block; the [read] starts where the
    [simple_read] stopped, and each call measures the timeout from its own
    beginning. *)
Theorem simple_read_then_read
    {U : Utils} {C : Constants} {T : Type} {TT : Transport T}
    (self : T) (start_char end_char : str_or_bytes)
    (timeout1 timeout2 : option Z) (junk text : timed) (d1 d2 : Z)
    (c1 c2 : byte) (f : frame) (n : Z) (rest : list rx_event)
    (t : list bytes) :
  online self ->
  ensure_bytes start_char = [c1] ->
  ensure_bytes end_char = [c2] ->
  free_of [[c1]] (data_of junk) = true ->
  free_of [[c2]] (data_of text) = true ->
  in_time (timeout self) 0
    (delays (junk ++ (d1, c1) :: text ++ [(d2, c2)])) = true ->
  good_block (timeout self) ETX f = true ->
  (line <- simple_read self start_char end_char timeout1 ;;
   message <- read self timeout2 ;;
   ret (line, message))
    (mkWorld n
       (wire (junk ++ (d1, c1) :: text ++ [(d2, c2)])
        ++ frame_events f ++ rest)
       t)
  = (Ok (c1 :: data_of text ++ [c2],
         STX :: data_of (body f) ++ [ETX; snd (check f)]),
     mkWorld
       (n + total (delays (junk ++ (d1, c1) :: text ++ [(d2, c2)]))
        + frame_span f)
       rest t).
Proof.
  intros Hon Hsc Hec Hjunk Htext Ht Hf.
  unfold bind at 1.
  rewrite (simple_read_delimited self Hon start_char end_char timeout1
             junk text d1 d2 c1 c2); auto.
  unfold bind at 1. unfold read. cbn [rx].
  rewrite (read_blocks_final self Hon); auto.
  - change (0 + 1 >? 1) with false. cbv iota. cbn [app].
    destruct (good_block_inv _ _ _ Hf) as (Hwf & _ & _).
    rewrite (frame_bytes_shape _ _ _ Hwf). reflexivity.
  - left. reflexivity.
  - rewrite length_app, frame_events_length. lia.
Qed.

(** An identification line that takes eight ticks and a block that takes
    eight ticks, under a timeout of ten. *)
Lemma simple_read_then_read_witness :
  (line <- simple_read example_port (Str "/") (Bytes [x0a]) None ;;
   message <- read example_port None ;;
   ret (line, message))
    (mkWorld 0
       (wire ([(1, "?"%byte)] ++ (1, "/"%byte)
              :: [(3, "I"%byte); (3, "D"%byte)] ++ [(0, x0a)])
        ++ frame_events (block 8 STX (list_byte_of_string "CD") ETX x06)
        ++ [])
       [])
  = (Ok ("/"%byte :: list_byte_of_string "ID" ++ [x0a],
         STX :: list_byte_of_string "CD" ++ [ETX; x06]),
     mkWorld 16 [] []).
Proof.
  exact (simple_read_then_read (U := concrete_utils) example_port
           (Str "/") (Bytes [x0a]) None None [(1, "?"%byte)]
           [(3, "I"%byte); (3, "D"%byte)] 1 0 "/"%byte x0a
           (block 8 STX (list_byte_of_string "CD") ETX x06) 0 [] []
           (serial_online _ _ _) eq_refl eq_refl eq_refl eq_refl eq_refl
           eq_refl).
Defined.
